(** * pcap_watcher.py: the capture-file watcher, embedded and verified

    A shallow embedding of [shared/bin/pcap_watcher.py]: the per-event handler
    installed by [event_process_generator], the constructor of [EventWatcher]
    with its connection and health loops, and the parts of [main] that sleep,
    poll and touch files.

    Python integers are [Z], strings are [string], dictionaries are
    [gmap string PyVal].  Calls that leave the process (the file system,
    libmagic, OpenSearch, ZeroMQ, signals) are answered by a record of
    functions, so that every definition below can be evaluated. *)

From Stdlib Require Import ZArith String Ascii List Bool Lia.
From stdpp Require Import base decidable option list gmap strings fin_maps.

Local Open Scope string_scope.
Local Open Scope Z_scope.
(* [++] is list append throughout; strings are appended with [+:+]. *)
Disable Notation "_ ++ _" : string_scope.

(** ** Python strings *)

Module PyStr.

(** [text.startswith(prefix)] *)
Fixpoint startswith (text prefix : string) {struct prefix} : bool :=
  match prefix with
  | EmptyString => true
  | String p prefix' =>
      match text with
      | EmptyString => false
      | String t text' => if Ascii.eqb t p then startswith text' prefix' else false
      end
  end.

(** [text.endswith(c)] for a one-character [c] *)
Fixpoint endswith_char (text : string) (c : ascii) : bool :=
  match text with
  | EmptyString => false
  | String t EmptyString => Ascii.eqb t c
  | String _ text' => endswith_char text' c
  end.

(** [text[n:]] *)
Fixpoint slice_from (n : nat) (text : string) : string :=
  match n, text with
  | O, _ => text
  | S _, EmptyString => EmptyString
  | S n', String _ text' => slice_from n' text'
  end.

(** [sub in text] *)
Fixpoint contains (sub text : string) : bool :=
  startswith text sub ||
  match text with
  | EmptyString => false
  | String _ text' => contains sub text'
  end.

(** [sep.join(parts)] *)
Fixpoint join (sep : string) (parts : list string) : string :=
  match parts with
  | [] => ""
  | [p] => p
  | p :: rest => p +:+ sep +:+ join sep rest
  end.

(** [text.split(c)] for a one-character separator: never the empty list. *)
Fixpoint split (c : ascii) (text : string) : list string :=
  match text with
  | EmptyString => [""]
  | String t text' =>
      if Ascii.eqb t c then "" :: split c text'
      else match split c text' with
           | [] => [String t ""]
           | w :: ws => String t w :: ws
           end
  end.

End PyStr.

(** ** posixpath and pathlib *)

Module posixpath.

Definition sep : string := "/".

(** [os.path.join(a, b)] with two arguments. *)
Definition join (a b : string) : string :=
  if PyStr.startswith b sep then b
  else if bool_decide (a = "") || PyStr.endswith_char a "/" then a +:+ b
  else a +:+ sep +:+ b.

Definition isabs (s : string) : bool := PyStr.startswith s sep.

(** The loop of [normpath] over the components; [new_comps] in order. *)
Fixpoint normpath_comps (initial_slashes : nat) (comps new_comps : list string) : list string :=
  match comps with
  | [] => new_comps
  | comp :: rest =>
      if bool_decide (comp = "") || bool_decide (comp = ".") then
        normpath_comps initial_slashes rest new_comps
      else if negb (bool_decide (comp = ".."))
              || (bool_decide (initial_slashes = O) && bool_decide (new_comps = []))
              || bool_decide (last new_comps = Some "..") then
        normpath_comps initial_slashes rest (new_comps ++ [comp])
      else if negb (bool_decide (new_comps = [])) then
        normpath_comps initial_slashes rest (removelast new_comps)
      else normpath_comps initial_slashes rest new_comps
  end.

(** [os.path.normpath(path)] *)
Definition normpath (path : string) : string :=
  if bool_decide (path = "") then "."
  else
    let initial_slashes : nat :=
      if PyStr.startswith path "/" then
        if PyStr.startswith path "//" && negb (PyStr.startswith path "///") then 2%nat else 1%nat
      else O in
    let comps := normpath_comps initial_slashes (PyStr.split "/" path) [] in
    let joined := PyStr.join "/" comps in
    let path' :=
      match initial_slashes with
      | O => joined
      | 1%nat => "/" +:+ joined
      | _ => "//" +:+ joined
      end in
    if bool_decide (path' = "") then "." else path'.

(** [os.path.abspath(path)] in the working directory [cwd]. *)
Definition abspath (cwd path : string) : string :=
  normpath (if isabs path then path else join cwd path).

End posixpath.

Module pathlib.

(** A [PurePosixPath]: its root and the parts after the root. *)
Record Path := {
  root : string;
  parts : list string;
}.

(** [pathlib.Path(s)]: empty and ["."] components are dropped. *)
Definition of_string (s : string) : Path :=
  {| root :=
       if PyStr.startswith s "//" && negb (PyStr.startswith s "///") then "//"
       else if PyStr.startswith s "/" then "/" else "";
     parts :=
       List.filter (fun c => negb (bool_decide (c = "")) && negb (bool_decide (c = ".")))
                   (PyStr.split "/" s) |}.

(** [str(p)], which is also [os.fspath(p)]. *)
Definition str (p : Path) : string :=
  if bool_decide (root p = "") && bool_decide (parts p = []) then "."
  else root p +:+ PyStr.join "/" (parts p).

(** [p / name] for a single component [name], as [iterdir] builds it. *)
Definition child (p : Path) (name : string) : Path :=
  {| root := root p; parts := parts p ++ [name] |}.

End pathlib.

(** ** Values, exceptions and the imported names *)

(** The Python values that occur in the dictionaries of this program: the
    fields of a search hit and the fields of the published record.
    [PyFloat m e] is the floating point number [m * 2 ^ e], which every
    finite one is; NaN and the infinities, which JSON does not have, are
    left out. *)
Inductive PyVal :=
| PyNone
| PyBool (b : bool)
| PyInt (z : Z)
| PyFloat (m e : Z)
| PyStr (s : string)
| PyList (l : list string).

(** [v == n] for an integer [n]: Python compares [True] and [False] as 1
    and 0 and a floating point number by its exact value, and no string,
    list or [None] equals an integer. *)
Definition py_eq_int (v : PyVal) (n : Z) : bool :=
  match v with
  | PyInt z => z =? n
  | PyBool b => (if b then 1 else 0) =? n
  | PyFloat m e => if 0 <=? e then m * 2 ^ e =? n else m =? n * 2 ^ (- e)
  | _ => false
  end.

(** The exception classes the program names in its [except] clauses, and
    one constructor for every other subclass of [Exception]. *)
Inductive Exn :=
| ConnectionError
| ConnectionTimeout
| ConnectionRefusedError
| NewConnectionError
| ZmqAgain
| OtherException (name : string).

(** [except (ConnectionError, ConnectionTimeout, ConnectionRefusedError,
    NewConnectionError)] *)
Definition is_connection_error (e : Exn) : bool :=
  match e with
  | ConnectionError | ConnectionTimeout | ConnectionRefusedError | NewConnectionError => true
  | _ => false
  end.

(** What the script imports from [pcap_utils] and [json]; these modules are
    not part of the file, so their constants and functions are taken as
    given. *)
Record Imports := {
  FILE_INFO_DICT_NAME : string;
  FILE_INFO_DICT_NODE : string;
  FILE_INFO_DICT_SIZE : string;
  FILE_INFO_DICT_TAGS : string;
  FILE_INFO_FILE_MIME : string;
  FILE_INFO_FILE_TYPE : string;
  PCAP_MIME_TYPES : list string;
  tags_from_filename : string -> list string;
  json_dumps : gmap string PyVal -> string;
}.

Definition ARKIME_FILES_INDEX : string := "arkime_files".
Definition ARKIME_FILE_SIZE_FIELD : string := "filesize".
Definition MINIMUM_CHECKED_FILE_SIZE_DEFAULT : Z := 24.
Definition MAXIMUM_CHECKED_FILE_SIZE_DEFAULT : Z := 32 * 1024 * 1024 * 1024.

(** Modelled from the spec: [remove_prefix] of [malcolm_utils], which is not
    part of the file.  The spec has it "strip the base-directory prefix
    including its trailing separator"; a text that does not start with the
    prefix is returned as it is. *)
Definition remove_prefix (text prefix : string) : string :=
  if PyStr.startswith text prefix then PyStr.slice_from (String.length prefix) text
  else text.

(** The parsed command line, [args]. *)
Record Args := {
  minBytes : Z;
  maxBytes : Z;
  opensearchUrl : option string;
  opensearchWaitForHealth : bool;
  nodeName : string;
  ignoreExisting : bool;
  includeAbsolutePath : bool;
  startSleepSec : Z;
  recursiveDir : option string;
  baseDir : string;
}.

(** ** The event handler *)

(** A pyinotify event: [event.dir] and [event.pathname]. *)
Record Event := {
  dir : bool;
  pathname : string;
}.

(** The search built at lines 213-217: the index, the term filter on [node]
    and the wildcard query on [name]. *)
Record SearchQuery := {
  q_index : string;
  q_term_node : string;
  q_wildcard_name : string;
}.

Abbreviation Hit := (gmap string PyVal).

(** What the outside answers while one event is handled.  [Search_execute]
    gives the hits of the response that [for hit in response] iterates, or
    the exception [execute] raises; [send_string] gives the exception the
    socket raises, if any. *)
Record World := {
  os_path_isfile : string -> bool;
  magic_from_file_mime : string -> string;
  magic_from_file : string -> string;
  os_path_getsize : string -> Z;
  Search_execute : SearchQuery -> Exn + list Hit;
  send_string : string -> option Exn;
}.

(** The fields of [self] the handler reads. *)
Record EventWatcher := {
  useOpenSearch : bool;
  openSearchClient : option string;
}.

(** The calls that leave the process, in the order they are made. *)
Inductive Effect :=
| EQuery (q : SearchQuery)
| ESend (msg : string).

(** A computation logs its effects and ends with a value or an exception. *)
Definition M (A : Type) : Type := list Effect * (Exn + A).

Definition ret {A} (a : A) : M A := ([], inr a).
Definition raise {A} (e : Exn) : M A := ([], inl e).
Definition bind {A B} (m : M A) (k : A -> M B) : M B :=
  match m with
  | (tr, inl e) => (tr, inl e)
  | (tr, inr a) => let '(tr', r) := k a in (tr ++ tr', r)
  end.
(** [try: m except <handles>: h] *)
Definition try_except {A} (m : M A) (handles : Exn -> bool) (h : Exn -> M A) : M A :=
  match m with
  | (tr, inl e) => if handles e then let '(tr', r) := h e in (tr ++ tr', r) else (tr, inl e)
  | (tr, inr a) => (tr, inr a)
  end.

Notation "x <- m ;; k" := (bind m (fun x => k))
  (at level 100, m at next level, right associativity).

Definition execute (w : World) (q : SearchQuery) : M (list Hit) :=
  ([EQuery q], Search_execute w q).

Definition topic_socket_send_string (w : World) (msg : string) : M unit :=
  ([ESend msg], match send_string w msg with Some e => inl e | None => inr tt end).

(** The branch in which the handler ends; Python returns [None] in each. *)
Inductive Outcome :=
| NotAFile          (* line 198 failed *)
| Rejected          (* lines 250-253 *)
| DuplicateSkipped  (* lines 225-228 *)
| Sent              (* lines 243-245 *)
| SendAbandoned.    (* lines 246-248 *)

(** Lines 219-223: the loop over the hits, left at the first match. *)
Fixpoint scan_hits (response : list Hit) (fileSize : Z) (fileIsDuplicate : bool) : bool :=
  match response with
  | [] => fileIsDuplicate
  | fileInfo :: rest =>
      match fileInfo !! ARKIME_FILE_SIZE_FIELD with
      | Some v => if py_eq_int v fileSize then true else scan_hits rest fileSize fileIsDuplicate
      | None => scan_hits rest fileSize fileIsDuplicate
      end
  end.

(** Line 208. *)
Definition relativePath (args : Args) (event : Event) : string :=
  remove_prefix (pathname event) (posixpath.join (baseDir args) "").

(** Lines 213-217. *)
Definition duplicate_query (args : Args) (event : Event) : SearchQuery :=
  {| q_index := ARKIME_FILES_INDEX;
     q_term_node := nodeName args;
     q_wildcard_name := "*" +:+ posixpath.sep +:+ relativePath args event |}.

(** Lines 235-242: the dictionary literal, its keys inserted in order. *)
Definition fileInfo (im : Imports) (args : Args) (event : Event)
    (fileSize : Z) (fileMime fileType : string) : gmap string PyVal :=
  <[FILE_INFO_DICT_TAGS im := PyList (tags_from_filename im (relativePath args event))]>
  (<[FILE_INFO_DICT_NODE im := PyStr (nodeName args)]>
  (<[FILE_INFO_FILE_TYPE im := PyStr fileType]>
  (<[FILE_INFO_FILE_MIME im := PyStr fileMime]>
  (<[FILE_INFO_DICT_SIZE im := PyInt fileSize]>
  (<[FILE_INFO_DICT_NAME im :=
       PyStr (if includeAbsolutePath args then pathname event else relativePath args event)]>
   ∅))))).

(** Line 205-207: the size and type test. *)
Definition size_and_type_ok (im : Imports) (args : Args)
    (fileSize : Z) (fileMime fileType : string) : bool :=
  ((minBytes args <=? fileSize) && (fileSize <=? maxBytes args))
  && (bool_decide (fileMime ∈ PCAP_MIME_TYPES im) || PyStr.contains "pcap-ng" fileType).

(** Lines 234-248: the record is serialised and handed to the socket; only
    [zmq.Again] is caught. *)
Definition publish (im : Imports) (args : Args) (w : World) (event : Event)
    (fileSize : Z) (fileMime fileType : string) : M Outcome :=
  try_except
    (_ <- topic_socket_send_string w
            (json_dumps im (fileInfo im args event fileSize fileMime fileType)) ;;
     ret Sent)
    (fun e => match e with ZmqAgain => true | _ => false end)
    (fun _ => ret SendAbandoned).

(** Lines 211-223: the duplicate check. *)
Definition check_duplicate (args : Args) (self : EventWatcher) (w : World)
    (event : Event) (fileSize : Z) : M bool :=
  let fileIsDuplicate := false in
  if useOpenSearch self then
    response <- execute w (duplicate_query args event) ;;
    ret (scan_hits response fileSize fileIsDuplicate)
  else ret fileIsDuplicate.

(** [_method_name(self, event)], lines 189-253, without the debug output. *)
Definition _method_name (im : Imports) (args : Args) (self : EventWatcher)
    (w : World) (event : Event) : M Outcome :=
  if negb (dir event) && os_path_isfile w (pathname event) then
    let fileMime := magic_from_file_mime w (pathname event) in
    let fileType := magic_from_file w (pathname event) in
    let fileSize := os_path_getsize w (pathname event) in
    if size_and_type_ok im args fileSize fileMime fileType then
      fileIsDuplicate <- check_duplicate args self w event fileSize ;;
      if (fileIsDuplicate : bool) then ret DuplicateSkipped
      else publish im args w event fileSize fileMime fileType
    else ret Rejected
  else ret NotAFile.

(** The notifier thread hands the events to the handler one after the other;
    an exception that leaves the handler ends the sequence. *)
Fixpoint process_events (im : Imports) (args : Args) (self : EventWatcher)
    (evs : list (World * Event)) : M (list Outcome) :=
  match evs with
  | [] => ret []
  | (w, event) :: rest =>
      o <- _method_name im args self w event ;;
      os <- process_events im args self rest ;;
      ret (o :: os)
  end.

(** The messages handed to the socket. *)
Definition sends {A} (m : M A) : list string :=
  omap (fun e => match e with ESend msg => Some msg | _ => None end) (fst m).

(** The searches executed. *)
Definition queries {A} (m : M A) : list SearchQuery :=
  omap (fun e => match e with EQuery q => Some q | _ => None end) (fst m).

(** The handler got past the size and type test, to line 208 and beyond. *)
Definition reached_duplicate_check (m : M Outcome) : bool :=
  match snd m with
  | inr NotAFile | inr Rejected => false
  | _ => true
  end.

(** The hit has the field [filesize], and its value equals [fileSize]. *)
Definition size_matches (fileSize : Z) (hit : Hit) : Prop :=
  exists v, hit !! ARKIME_FILE_SIZE_FIELD = Some v /\ py_eq_int v fileSize = true.

(** The hit carries a size equal to [fileSize]: its field [filesize] holds
    that integer, or a floating point number of that value, or [True] for 1
    or [False] for 0, which Python takes for equal to them. *)
Definition hit_has_size (fileSize : Z) (hit : Hit) : Prop :=
  match hit !! ARKIME_FILE_SIZE_FIELD with
  | Some (PyInt z) => z = fileSize
  | Some (PyFloat m e) =>
      (0 <= e /\ m * 2 ^ e = fileSize) \/ (e < 0 /\ m = fileSize * 2 ^ (- e))
  | Some (PyBool b) => (if b then 1 else 0) = fileSize
  | _ => False
  end.

(** The event is for a regular file that still exists (line 198). *)
Definition regular_file (w : World) (event : Event) : Prop :=
  dir event = false /\ os_path_isfile w (pathname event) = true.

(** The file of the event passes the test of lines 205-207. *)
Definition passes_filter (im : Imports) (args : Args) (w : World) (event : Event) : Prop :=
  size_and_type_ok im args (os_path_getsize w (pathname event))
    (magic_from_file_mime w (pathname event)) (magic_from_file w (pathname event)) = true.

(** The record built for the event, and its serialisation. *)
Definition record_of (im : Imports) (args : Args) (w : World) (event : Event) : gmap string PyVal :=
  fileInfo im args event (os_path_getsize w (pathname event))
    (magic_from_file_mime w (pathname event)) (magic_from_file w (pathname event)).

Definition message_of (im : Imports) (args : Args) (w : World) (event : Event) : string :=
  json_dumps im (record_of im args w event).

(** The keys of the record, in the order of the dictionary literal. *)
Definition record_keys (im : Imports) : list string :=
  [FILE_INFO_DICT_NAME im; FILE_INFO_DICT_SIZE im; FILE_INFO_FILE_MIME im;
   FILE_INFO_FILE_TYPE im; FILE_INFO_DICT_NODE im; FILE_INFO_DICT_TAGS im].

(** The duplicate check finds a hit of the file's size. *)
Definition found_duplicate (args : Args) (self : EventWatcher) (w : World) (event : Event) : Prop :=
  useOpenSearch self = true /\
  exists hits, Search_execute w (duplicate_query args event) = inr hits /\
    exists hit, hit ∈ hits /\ size_matches (os_path_getsize w (pathname event)) hit.

(** The duplicate check is passed: the oracle is not in use, or no hit of
    the response has the file's size. *)
Definition no_duplicate_found (args : Args) (self : EventWatcher) (w : World) (event : Event) : Prop :=
  useOpenSearch self = false \/
  exists hits, Search_execute w (duplicate_query args event) = inr hits /\
    forall hit, hit ∈ hits -> ~ size_matches (os_path_getsize w (pathname event)) hit.

(** An error of the duplicate query is taken for "not a duplicate": the
    handler returns and the record is sent. *)
Definition query_error_fails_open (im : Imports) (args : Args) (self : EventWatcher)
    (w : World) (event : Event) : Prop :=
  forall e, Search_execute w (duplicate_query args event) = inl e ->
    exists o, snd (_method_name im args self w event) = inr o /\
      sends (_method_name im args self w event) = [message_of im args w event].

(** The socket raises nothing, or [zmq.Again], for this message. *)
Definition send_returns_or_again (w : World) (msg : string) : Prop :=
  send_string w msg = None \/ send_string w msg = Some ZmqAgain.

(** ** Loops, time and signals *)

(** What a pass through a loop body ends with: the next test of the
    condition, a [break], or an exception that leaves the loop. *)
Inductive Step (S : Type) :=
| Continue (s : S)
| Break (s : S)
| Raise (e : Exn) (s : S).
Arguments Continue {S} s.
Arguments Break {S} s.
Arguments Raise {S} e s.

Inductive LoopResult (S : Type) :=
| Finished (s : S)
| Raised (e : Exn) (s : S)
| OutOfFuel (s : S).
Arguments Finished {S} s.
Arguments Raised {S} e s.
Arguments OutOfFuel {S} s.

(** [while cond: body], run for at most [fuel] passes through the body. *)
Fixpoint while {S : Type} (cond : S -> bool) (body : S -> Step S)
    (fuel : nat) (s : S) : LoopResult S :=
  match fuel with
  | O => if cond s then OutOfFuel s else Finished s
  | Datatypes.S fuel' =>
      if cond s then
        match body s with
        | Continue s' => while cond body fuel' s'
        | Break s' => Finished s'
        | Raise e s' => Raised e s'
        end
      else Finished s
  end.

(** The blocking calls of the main thread. [Sleep ms] is [time.sleep], in
    milliseconds. *)
Inductive Action :=
| Sleep (ms : nat)
| ConnectAttempt
| HealthPoll
| Breakpoint.

(** The main thread's logical clock and the actions it has begun, each with
    the time it began.  Every test of a loop condition and every action takes
    one unit of the clock, so that a signal can arrive between any two of
    them. *)
Record Timeline := {
  clock : nat;
  trace : list (nat * Action);
}.

Definition tick (t : Timeline) : Timeline :=
  {| clock := S (clock t); trace := trace t |}.

Definition act (a : Action) (t : Timeline) : Timeline :=
  {| clock := S (clock t); trace := trace t ++ [(clock t, a)] |}.

(** How one pass through lines 93-119 ends: an exception before or after
    [self.openSearchClient] is assigned, or the end of the [try] body. *)
Inductive AttemptResult :=
| RaisedBeforeClient (e : Exn)
| RaisedAfterClient (e : Exn)
| Completed.

(** What the outside answers to the main thread, by the time of the question:
    the global [shuttingDown] as [shutdown_handler] leaves it, whether a
    SIGUSR1 is delivered (and [pdb_handler] sets [pdbFlagged]) at that time,
    the connection attempt and the health request. *)
Record Env := {
  shuttingDown : nat -> bool;
  sigusr1 : nat -> bool;
  connect_try : nat -> AttemptResult;
  health_try : nat -> option Exn;
}.

(** [shutdown_handler] only ever sets the flag. *)
Definition never_cleared (flag : nat -> bool) : Prop :=
  forall t t' : nat, (t <= t')%nat -> flag t = true -> flag t' = true.

(** ** EventWatcher.__init__ *)

Record ConnState := {
  tl : Timeline;
  client : option string;
  connected : bool;
  healthy : bool;
}.

Definition with_tl (f : Timeline -> Timeline) (s : ConnState) : ConnState :=
  {| tl := f (tl s); client := client s; connected := connected s; healthy := healthy s |}.

(** Line 91. *)
Definition connect_cond (env : Env) (s : ConnState) : bool :=
  negb (connected s) && negb (shuttingDown env (clock (tl s))).

(** Lines 92-139.  Both [except] clauses swallow what they catch, and the
    second one catches every exception the first one lets through. *)
Definition connect_body (args : Args) (url : string) (env : Env)
    (s : ConnState) : Step ConnState :=
  let t0 := tick (tl s) in
  let t1 := act ConnectAttempt t0 in
  let s1 :=
    match connect_try env (clock t0) with
    | Completed =>
        let client' := Some url in
        let connected' := bool_decide (is_Some client') in
        {| tl := if negb connected' then act (Sleep 1000) t1 else t1;
           client := client'; connected := connected'; healthy := healthy s |}
    | RaisedAfterClient e =>
        {| tl := t1; client := Some url; connected := connected s; healthy := healthy s |}
    | RaisedBeforeClient e =>
        {| tl := t1; client := client s; connected := connected s; healthy := healthy s |}
    end in
  if negb (connected s1) && opensearchWaitForHealth args then
    Continue (with_tl (act (Sleep 1000)) s1)
  else
    Break (if opensearchWaitForHealth args then with_tl (act (Sleep 1000)) s1 else s1).

Definition connect_loop (args : Args) (url : string) (env : Env) :
    nat -> ConnState -> LoopResult ConnState :=
  while (connect_cond env) (connect_body args url env).

(** Line 142. *)
Definition health_cond (args : Args) (env : Env) (s : ConnState) : bool :=
  connected s && opensearchWaitForHealth args && negb (healthy s)
  && negb (shuttingDown env (clock (tl s))).

(** Lines 143-164.  Only the four connection errors are caught here. *)
Definition health_body (env : Env) (s : ConnState) : Step ConnState :=
  let t0 := tick (tl s) in
  let t1 := act HealthPoll t0 in
  match health_try env (clock t0) with
  | None =>
      let healthy' := true in
      Continue {| tl := if negb healthy' then act (Sleep 1000) t1 else t1;
                  client := client s; connected := connected s; healthy := healthy' |}
  | Some e =>
      if is_connection_error e then
        Continue {| tl := if negb (healthy s) then act (Sleep 1000) t1 else t1;
                    client := client s; connected := connected s; healthy := healthy s |}
      else Raise e (with_tl (fun _ => t1) s)
  end.

Definition health_loop (args : Args) (env : Env) :
    nat -> ConnState -> LoopResult ConnState :=
  while (health_cond args env) (health_body env).

(** Lines 82-166: the fields [useOpenSearch] and [openSearchClient] that the
    constructor leaves in [self], and the time it took. *)
Definition EventWatcher_init (args : Args) (env : Env) (fuel : nat)
    (t : Timeline) : LoopResult (EventWatcher * Timeline) :=
  match opensearchUrl args with
  | None => Finished ({| useOpenSearch := false; openSearchClient := None |}, t)
  | Some url =>
      let s0 := {| tl := t; client := None; connected := false; healthy := false |} in
      let self_of (s : ConnState) (use : bool) :=
        ({| useOpenSearch := use; openSearchClient := client s |}, tl s) in
      match connect_loop args url env fuel s0 with
      | Finished s1 =>
          match health_loop args env fuel s1 with
          | Finished s2 => Finished (self_of s2 (connected s2 && healthy s2))
          | Raised e s2 => Raised e (self_of s2 false)
          | OutOfFuel s2 => OutOfFuel (self_of s2 false)
          end
      | Raised e s1 => Raised e (self_of s1 false)
      | OutOfFuel s1 => OutOfFuel (self_of s1 false)
      end
  end.

(** ** main: the sleeping and polling loops *)

Record SleepState := {
  sl_tl : Timeline;
  sleepCount : Z;
}.

(** Lines 476-479. *)
Definition warmup_cond (args : Args) (env : Env) (s : SleepState) : bool :=
  negb (shuttingDown env (clock (sl_tl s))) && (sleepCount s <? startSleepSec args).

Definition warmup_body (s : SleepState) : Step SleepState :=
  let t0 := tick (sl_tl s) in
  Continue {| sl_tl := act (Sleep 1000) t0; sleepCount := sleepCount s + 1 |}.

Definition warmup_loop (args : Args) (env : Env) :
    nat -> SleepState -> LoopResult SleepState :=
  while (warmup_cond args env) warmup_body.

(** The time of the main thread and the value of the global [pdbFlagged]. *)
Record PollState := {
  p_tl : Timeline;
  pdbFlagged : bool;
}.

(** Line 528. *)
Definition polling_cond (env : Env) (s : PollState) : bool :=
  negb (shuttingDown env (clock (p_tl s))).

(** Lines 529-532. A SIGUSR1 delivered while the condition is tested is
    seen at line 529; line 530 clears the flag, and a SIGUSR1 delivered
    during [breakpoint()] or during the sleep sets it for the next pass. *)
Definition polling_body (env : Env) (s : PollState) : Step PollState :=
  let flagged := pdbFlagged s || sigusr1 env (clock (p_tl s)) in
  let t0 := tick (p_tl s) in
  if flagged then
    let t1 := act Breakpoint t0 in
    Continue {| p_tl := act (Sleep 200) t1;
                pdbFlagged := sigusr1 env (clock t0) || sigusr1 env (clock t1) |}
  else
    Continue {| p_tl := act (Sleep 200) t0;
                pdbFlagged := sigusr1 env (clock t0) |}.

Definition polling_loop (env : Env) : nat -> PollState -> LoopResult PollState :=
  while (polling_cond env) (polling_body env).

Definition is_sleep (a : Action) : bool :=
  match a with Sleep _ => true | _ => false end.

Definition is_attempt (a : Action) : bool :=
  match a with ConnectAttempt => true | _ => false end.

(** The sleeps of a trace that began at time [t0] or later. *)
Definition sleeps_from (t0 : nat) (tr : list (nat * Action)) : nat :=
  length (List.filter (fun ta => is_sleep ta.2 && (t0 <=? ta.1)%nat) tr).

Definition count_sleeps (tr : list (nat * Action)) : nat :=
  length (List.filter (fun ta => is_sleep ta.2) tr).

Definition count_attempts (tr : list (nat * Action)) : nat :=
  length (List.filter (fun ta => is_attempt ta.2) tr).

(** ** What the loops are asked to do *)

Definition step_state {S : Type} (st : Step S) : S :=
  match st with Continue s | Break s | Raise _ s => s end.

Definition result_state {S : Type} (r : LoopResult S) : S :=
  match r with Finished s | Raised _ s | OutOfFuel s => s end.

(** The loop was left, by its condition, a [break] or an exception. *)
Definition exited {S : Type} (r : LoopResult S) : bool :=
  match r with OutOfFuel _ => false | _ => true end.

(** One pass through a loop body, from the test of the condition at time
    [clock t]: it takes time, its actions begin after the test, and at most
    one of them is a sleep. *)
Definition one_pass (t t' : Timeline) : Prop :=
  (clock t < clock t')%nat /\
  exists new, trace t' = trace t ++ new /\
    Forall (fun ta => (clock t < ta.1 < clock t')%nat) new /\
    (count_sleeps new <= 1)%nat.

(** From the state [s] the loop is left after finitely many passes, and at
    most one of its sleeps begins at time [t0] or later. *)
Definition exits_promptly {S : Type} (t0 : nat) (timeline : S -> Timeline)
    (loop : nat -> S -> LoopResult S) (s : S) : Prop :=
  exists fuel, exited (loop fuel s) = true /\
    exists new, trace (timeline (result_state (loop fuel s))) = trace (timeline s) ++ new /\
      (sleeps_from t0 new <= 1)%nat.

(** The connection loop ends only connected or with the shutdown flag set. *)
Definition ends_only_connected_or_shut_down (args : Args) (url : string) (env : Env)
    (s : ConnState) : Prop :=
  forall fuel s', connect_loop args url env fuel s = Finished s' ->
    connected s' = true \/ exists t, shuttingDown env t = true.

(** [n] failed attempts from time [c] on, each followed by a sleep of one
    second. *)
Fixpoint retry_trace (c n : nat) : list (nat * Action) :=
  match n with
  | O => []
  | S n' => (S c, ConnectAttempt) :: (S (S c), Sleep 1000) :: retry_trace (3 + c) n'
  end.

(** ** main: the directories and the files found at startup *)

(** What the file system answers during startup.  [os_listdir] gives the
    names in a directory, by the text of its path; [glob_glob n] is the
    answer to the [n]-th call of [glob.glob]. *)
Record FileSystem := {
  os_getcwd : string;
  os_path_isdir : string -> bool;
  os_listdir : string -> list string;
  is_file : string -> bool;
  glob_glob : nat -> string -> list string;
}.

(** [pathlib.Path(d).iterdir()]: one path [Path(d) / name] for every name. *)
Definition iterdir (fs : FileSystem) (d : string) : list pathlib.Path :=
  let p := pathlib.of_string d in
  map (pathlib.child p) (os_listdir fs (pathlib.str p)).

(** The regular files of a directory, by their paths. *)
Definition regular_files (fs : FileSystem) (d : string) : list string :=
  map pathlib.str (List.filter (fun x => is_file fs (pathlib.str x)) (iterdir fs d)).

(** Line 486. *)
Definition preexistingDir (args : Args) (fs : FileSystem) : bool :=
  os_path_isdir fs (baseDir args).

(** Lines 495-500: [glob.glob] is asked again until it finds a directory. *)
Definition resolve_cond (s : nat * list string) : bool :=
  bool_decide (length s.2 = O).

Definition resolve_body (args : Args) (fs : FileSystem)
    (s : nat * list string) : Step (nat * list string) :=
  match recursiveDir args with
  | None => Continue (s.1, [baseDir args])
  | Some name =>
      Continue (S s.1, glob_glob fs s.1 (baseDir args +:+ "/**/" +:+ name))
  end.

Definition resolve_watchDirs (args : Args) (fs : FileSystem) (fuel : nat) :
    LoopResult (nat * list string) :=
  while resolve_cond (resolve_body args fs) fuel (O, []).

(** Lines 508-509: the paths the watches are added on. *)
Definition watched_paths (fs : FileSystem) (watchDirs : list string) : list string :=
  map (posixpath.abspath (os_getcwd fs)) watchDirs.


(** Lines 518-523: the paths given to [touch], in order; [shutdown] is the
    value of the flag when line 518 reads it. *)
Definition touch_preexisting (args : Args) (fs : FileSystem)
    (shutdown : bool) (watchDirs : list string) : list string :=
  if preexistingDir args fs && negb (ignoreExisting args) && negb shutdown then
    flat_map
      (fun watchDir =>
         map (fun x => posixpath.join watchDir (pathlib.str x))
             (List.filter (fun x => is_file fs (pathlib.str x)) (iterdir fs watchDir)))
      watchDirs
  else [].

(** ** Sample inputs *)

Module Sample.

(** The names as [pcap_utils] has them, with stand-ins for its tag function
    and for [json.dumps]. *)
Definition imports : Imports :=
  {| FILE_INFO_DICT_NAME := "name";
     FILE_INFO_DICT_NODE := "node";
     FILE_INFO_DICT_SIZE := "size";
     FILE_INFO_DICT_TAGS := "tags";
     FILE_INFO_FILE_MIME := "mime";
     FILE_INFO_FILE_TYPE := "type";
     PCAP_MIME_TYPES := ["application/vnd.tcpdump.pcap"; "application/x-pcapng"];
     tags_from_filename := fun path => PyStr.split "/" path;
     json_dumps := fun d => match d !! "name" with Some (PyStr n) => n | _ => "" end |}.

Definition mk_args (url : option string) (wait : bool) (base : string) : Args :=
  {| minBytes := 24; maxBytes := 1000;
     opensearchUrl := url; opensearchWaitForHealth := wait;
     nodeName := "malcolm"; ignoreExisting := false; includeAbsolutePath := false;
     startSleepSec := 3; recursiveDir := None; baseDir := base |}.

Definition url : string := "http://opensearch:9200".

(** An endpoint, no wait for health. *)
Definition args : Args := mk_args (Some url) false "/data/pcap".
(** An endpoint, and the wait for health. *)
Definition args_waiting : Args := mk_args (Some url) true "/data/pcap".
(** No endpoint. *)
Definition args_no_endpoint : Args := mk_args None false "/data/pcap".
(** The directory given as a relative path. *)
Definition args_relative : Args := mk_args None false "pcap".

(** The backend answers every attempt and every health request; no signal. *)
Definition backend_up : Env :=
  {| shuttingDown := fun _ => false; sigusr1 := fun _ => false;
     connect_try := fun _ => Completed; health_try := fun _ => None |}.

(** The backend refuses every connection; no signal. *)
Definition backend_down : Env :=
  {| shuttingDown := fun _ => false; sigusr1 := fun _ => false;
     connect_try := fun _ => RaisedAfterClient ConnectionRefusedError;
     health_try := fun _ => Some ConnectionRefusedError |}.

(** The backend refuses every connection; the shutdown signal arrives at
    time 5. *)
Definition backend_down_shutdown : Env :=
  {| shuttingDown := fun t => (5 <=? t)%nat; sigusr1 := fun _ => false;
     connect_try := fun _ => RaisedAfterClient ConnectionRefusedError;
     health_try := fun _ => Some ConnectionRefusedError |}.

Definition start : Timeline := {| clock := O; trace := [] |}.

Definition not_connected : ConnState :=
  {| tl := start; client := None; connected := false; healthy := false |}.

(** A capture file of 500 bytes, and what the search answers. *)
Definition world (answer : Exn + list Hit) : World :=
  {| os_path_isfile := fun _ => true;
     magic_from_file_mime := fun _ => "application/vnd.tcpdump.pcap";
     magic_from_file := fun _ => "pcap capture file, microsecond ts";
     os_path_getsize := fun _ => 500;
     Search_execute := fun _ => answer;
     send_string := fun _ => None |}.

Definition event : Event := {| dir := false; pathname := "/data/pcap/sub/dir/test.pcap" |}.

(** A hit for a file of 500 bytes. *)
Definition hit_500 : Hit := {[ "name" := PyStr "/data/pcap/sub/dir/test.pcap"; "filesize" := PyInt 500 ]}.

Definition oracle_ready : EventWatcher :=
  {| useOpenSearch := true; openSearchClient := Some url |}.

(** A relative watch directory with one regular file and one directory. *)
Definition fs : FileSystem :=
  {| os_getcwd := "/data";
     os_path_isdir := fun d => bool_decide (d = "pcap") || bool_decide (d = "pcap/sub");
     os_listdir := fun d => if bool_decide (d = "pcap") then ["a.pcap"; "sub"] else [];
     is_file := fun f => bool_decide (f = "pcap/a.pcap");
     glob_glob := fun _ _ => [] |}.

End Sample.

(** ** The signal handlers *)

Module Signals.

Inductive Signal := SIGINT | SIGTERM | SIGUSR1 | SIGUSR2.

(** The module globals the handlers and [main] write. [debugToggled] has no
    value until [debug_toggle_handler] gives it one. *)
Record Globals := {
  debug : bool;
  verboseDebug : bool;
  debugToggled : option bool;
  pdbFlagged : bool;
  shuttingDown : bool;
}.

(** Lines 56-58 and 64. *)
Definition at_import : Globals :=
  {| debug := false; verboseDebug := false; debugToggled := None;
     pdbFlagged := false; shuttingDown := false |}.

(** Lines 262-264. *)
Definition shutdown_handler (g : Globals) : Globals :=
  {| debug := debug g; verboseDebug := verboseDebug g; debugToggled := debugToggled g;
     pdbFlagged := pdbFlagged g; shuttingDown := true |}.

(** Lines 269-271. *)
Definition pdb_handler (g : Globals) : Globals :=
  {| debug := debug g; verboseDebug := verboseDebug g; debugToggled := debugToggled g;
     pdbFlagged := true; shuttingDown := shuttingDown g |}.

(** Lines 276-280. *)
Definition debug_toggle_handler (g : Globals) : Globals :=
  {| debug := negb (debug g); verboseDebug := verboseDebug g; debugToggled := Some true;
     pdbFlagged := pdbFlagged g; shuttingDown := shuttingDown g |}.

(** Lines 445-446: [main] sets the two debug flags from the command line. *)
Definition set_debug_flags (args_debug args_verboseDebug : bool) (g : Globals) : Globals :=
  {| debug := args_debug || args_verboseDebug; verboseDebug := args_verboseDebug;
     debugToggled := debugToggled g; pdbFlagged := pdbFlagged g;
     shuttingDown := shuttingDown g |}.

(** Lines 470-473: the handler registered for each signal. *)
Definition handler_of (sig : Signal) : Globals -> Globals :=
  match sig with
  | SIGINT => shutdown_handler
  | SIGTERM => shutdown_handler
  | SIGUSR1 => pdb_handler
  | SIGUSR2 => debug_toggle_handler
  end.

(** The signals of a list are delivered one after the other. *)
Definition deliver (sigs : list Signal) (g : Globals) : Globals :=
  foldl (fun g sig => handler_of sig g) g sigs.

Definition is_shutdown_signal (sig : Signal) : bool :=
  match sig with SIGINT | SIGTERM => true | _ => false end.

Definition is_usr1 (sig : Signal) : bool :=
  match sig with SIGUSR1 => true | _ => false end.

Definition is_usr2 (sig : Signal) : bool :=
  match sig with SIGUSR2 => true | _ => false end.

(** The signals that arrive at the times before [t], in order, when
    [arrivals t'] are the signals that arrive at time [t']. *)
Fixpoint arrived_before (arrivals : nat -> list Signal) (t : nat) : list Signal :=
  match t with
  | O => []
  | S t' => arrived_before arrivals t' ++ arrivals t'
  end.

(** The flag [shuttingDown] as the main thread reads it at time [t]. *)
Definition flag_at (arrivals : nat -> list Signal) (g : Globals) (t : nat) : bool :=
  shuttingDown (deliver (arrived_before arrivals t) g).

End Signals.

(** ** main: the search endpoint and its credentials *)

(** [bool(s)] of a string or [None]. *)
Definition py_truthy (o : option string) : bool :=
  match o with
  | Some s => negb (bool_decide (s = ""))
  | None => false
  end.

(** [f"{o}"] of a string or [None]. *)
Definition py_format (o : option string) : string :=
  match o with
  | Some s => s
  | None => "None"
  end.

Record Endpoint := {
  ep_url : option string;
  ep_isLocal : bool;
  ep_httpAuth : option string;
}.

(** Lines 456-467. [curlrc] is what [ParseCurlFile] returns for the
    credentials file: a dictionary of strings that answers [None] for a
    missing key. *)
Definition resolve_endpoint (opensearchUrl : option string) (opensearchIsLocal : bool)
    (curlrc : gmap string string) : Endpoint :=
  let isLocal := opensearchIsLocal
                 || bool_decide (opensearchUrl = Some "http://opensearch:9200") in
  let opensearchCreds : gmap string string := if negb isLocal then curlrc else ∅ in
  let url :=
    if negb (py_truthy opensearchUrl) then
      if isLocal then Some "http://opensearch:9200"
      else match opensearchCreds !! "url" with
           | Some u => Some u
           | None => opensearchUrl
           end
    else opensearchUrl in
  let httpAuth :=
    match opensearchCreds !! "user" with
    | Some user => Some (user +:+ ":" +:+ py_format (opensearchCreds !! "password"))
    | None => None
    end in
  {| ep_url := url; ep_isLocal := isLocal; ep_httpAuth := httpAuth |}.

(** ** The handlers installed on the class *)

(** Line 72. *)
Definition _methods : list string := ["IN_CLOSE_WRITE"; "IN_MOVED_TO"].

(** A method of the class, once [args] and the imports are fixed. *)
Abbreviation Method := (EventWatcher -> World -> Event -> M Outcome).

(** Lines 187-257: [setattr(cls, "process_" + method, _method_name)], the
    class being the dictionary of its attributes. *)
Definition event_process_generator (im : Imports) (args : Args)
    (cls : gmap string Method) (method : string) : gmap string Method :=
  <["process_" +:+ method := _method_name im args]> cls.

(** Lines 482-483. *)
Definition install_handlers (im : Imports) (args : Args) (methods : list string)
    (cls : gmap string Method) : gmap string Method :=
  foldl (event_process_generator im args) cls methods.

(** ** Traces of the loops *)

(** [k] health requests from time [c] on that end in a connection error,
    each followed by a sleep of one second. *)
Fixpoint health_retry_trace (c k : nat) : list (nat * Action) :=
  match k with
  | O => []
  | S k' => (S c, HealthPoll) :: (S (S c), Sleep 1000) :: health_retry_trace (3 + c) k'
  end.

(** [n] sleeps of one second from time [c] on, as the warm-up loop makes
    them. *)
Fixpoint warmup_trace (c n : nat) : list (nat * Action) :=
  match n with
  | O => []
  | S n' => (S c, Sleep 1000) :: warmup_trace (2 + c) n'
  end.

(** The [breakpoint()] calls of a trace. *)
Definition count_breakpoints (tr : list (nat * Action)) : nat :=
  length (List.filter (fun ta => match ta.2 with Breakpoint => true | _ => false end) tr).

(** ** main, from the warm-up to the last sleep *)

(** The calls of [main] that act on the directory, the watches, the
    notifier thread and the files. *)
Inductive Call :=
| Mkdir (path : string)
| AddWatch (path : string)
| NotifierStart
| Touch (path : string)
| NotifierStop.

(** The time and the blocking calls of the main thread, and its other
    calls with the times they were made. *)
Record MainState := {
  m_tl : Timeline;
  m_calls : list (nat * Call);
}.

Definition main_tick (s : MainState) : MainState :=
  {| m_tl := tick (m_tl s); m_calls := m_calls s |}.

Definition main_sleep (ms : nat) (s : MainState) : MainState :=
  {| m_tl := act (Sleep ms) (m_tl s); m_calls := m_calls s |}.

Definition main_call (s : MainState) (c : Call) : MainState :=
  {| m_tl := tick (m_tl s); m_calls := m_calls s ++ [(clock (m_tl s), c)] |}.

Definition main_calls (cs : list Call) (s : MainState) : MainState :=
  foldl main_call s cs.

Definition at_time (t : Timeline) (s : MainState) : MainState :=
  {| m_tl := t; m_calls := m_calls s |}.

(** The calls made, without their times. *)
Definition calls_made (s : MainState) : list Call := map snd (m_calls s).

(** A SIGUSR1 is delivered at one of the [n] times from [c] on. *)
Definition usr1_between (env : Env) (c n : nat) : bool :=
  existsb (sigusr1 env) (seq c n).

(** The number of the [n] times from [c] on at which a SIGUSR1 is delivered. *)
Fixpoint usr1_arrivals (env : Env) (c n : nat) : nat :=
  match n with
  | O => O
  | S n' => ((if sigusr1 env c then 1 else 0) + usr1_arrivals env (S c) n')%nat
  end.

(** Lines 475-512 of [main], after the command line is read and the signal
    handlers are set: the warm-up, the directory, the watch directories, the
    watcher and its watches. [mkdir_error] is the exception of [mkdir], if it
    raises one. The result is the state after line 512 and [watchDirs]. *)
Definition main_startup (args : Args) (fs : FileSystem) (env : Env)
    (mkdir_error : option Exn) (fuel : nat) (t : Timeline) :
    LoopResult (MainState * list string) :=
  (* lines 476-479 *)
  match warmup_loop args env fuel {| sl_tl := t; sleepCount := 0 |} with
  | Raised e sl => Raised e ({| m_tl := sl_tl sl; m_calls := [] |}, [])
  | OutOfFuel sl => OutOfFuel ({| m_tl := sl_tl sl; m_calls := [] |}, [])
  | Finished sl =>
      let s := {| m_tl := sl_tl sl; m_calls := [] |} in
      (* lines 486-492 *)
      let s := if preexistingDir args fs then s else main_call s (Mkdir (baseDir args)) in
      match (if preexistingDir args fs then None else mkdir_error) with
      | Some e => Raised e (s, [])
      | None =>
          (* lines 495-500 *)
          match resolve_watchDirs args fs fuel with
          | Raised e _ => Raised e (s, [])
          | OutOfFuel _ => OutOfFuel (s, [])
          | Finished (_, watchDirs) =>
              (* line 503 *)
              let s := main_sleep 1000 s in
              (* line 507 *)
              match EventWatcher_init args env fuel (m_tl s) with
              | Raised e (_, t1) => Raised e (at_time t1 s, watchDirs)
              | OutOfFuel (_, t1) => OutOfFuel (at_time t1 s, watchDirs)
              | Finished (_, t1) =>
                  let s := at_time t1 s in
                  (* lines 508-509 *)
                  let s := main_calls (map AddWatch (watched_paths fs watchDirs)) s in
                  (* line 512 *)
                  Finished (main_sleep 2000 s, watchDirs)
              end
          end
      end
  end.

(** Lines 513-539 of [main]: the notifier thread, the files found, the
    polling loop and the shutdown. [began] is the time at which [main] set
    the signal handlers: every SIGUSR1 since then has set [pdbFlagged], which
    nothing clears before line 530. *)
Definition main_serve (args : Args) (fs : FileSystem) (env : Env) (fuel : nat)
    (began : nat) (s : MainState) (watchDirs : list string) : LoopResult MainState :=
  (* lines 513-515 *)
  let event_notifier_started := negb (shuttingDown env (clock (m_tl s))) in
  let s := main_tick s in
  let s := if event_notifier_started then main_call s NotifierStart else s in
  (* lines 518-523 *)
  let shutdown := shuttingDown env (clock (m_tl s)) in
  let s := main_tick s in
  let s := main_calls (map Touch (touch_preexisting args fs shutdown watchDirs)) s in
  (* lines 528-532 *)
  match polling_loop env fuel
          {| p_tl := m_tl s;
             pdbFlagged := usr1_between env began (clock (m_tl s) - began) |} with
  | Raised e p => Raised e (at_time (p_tl p) s)
  | OutOfFuel p => OutOfFuel (at_time (p_tl p) s)
  | Finished p =>
      let s := at_time (p_tl p) s in
      (* lines 537-539 *)
      let s := if event_notifier_started then main_call s NotifierStop else s in
      Finished (main_sleep 1000 s)
  end.

(** Lines 475-542. The events that the notifier thread handles meanwhile
    are not part of this. *)
Definition main_run (args : Args) (fs : FileSystem) (env : Env)
    (mkdir_error : option Exn) (fuel : nat) (t : Timeline) : LoopResult MainState :=
  match main_startup args fs env mkdir_error fuel t with
  | Raised e (s, _) => Raised e s
  | OutOfFuel (s, _) => OutOfFuel s
  | Finished (s, watchDirs) => main_serve args fs env fuel (clock t) s watchDirs
  end.

(** ** More sample inputs *)

Module Sample2.

(** The backend accepts the connection, and answers the health request with
    an error that is no connection error; no signal. *)
Definition backend_health_broken : Env :=
  {| shuttingDown := fun _ => false; sigusr1 := fun _ => false;
     connect_try := fun _ => Completed;
     health_try := fun _ => Some (OtherException "AuthorizationException") |}.

(** The backend refuses the first connection and accepts the second, at time
    4; it times out on the first health request and answers the second, at
    time 10; no signal. *)
Definition backend_slow : Env :=
  {| shuttingDown := fun _ => false; sigusr1 := fun _ => false;
     connect_try := fun t => if (t <? 4)%nat then RaisedAfterClient ConnectionRefusedError
                             else Completed;
     health_try := fun t => if (t <? 10)%nat then Some ConnectionTimeout else None |}.

(** Shutdown was requested before [main] began. *)
Definition shut_down_from_start : Env :=
  {| shuttingDown := fun _ => true; sigusr1 := fun _ => false;
     connect_try := fun _ => Completed; health_try := fun _ => None |}.

(** The watcher the constructor leaves without an endpoint. *)
Definition oracle_off : EventWatcher :=
  {| useOpenSearch := false; openSearchClient := None |}.

(** More bytes asked for than allowed. *)
Definition args_empty_range : Args :=
  {| minBytes := 1000; maxBytes := 24;
     opensearchUrl := None; opensearchWaitForHealth := false;
     nodeName := "malcolm"; ignoreExisting := false; includeAbsolutePath := false;
     startSleepSec := 0; recursiveDir := None; baseDir := "/data/pcap" |}.

(** A hit for the same path with another size. *)
Definition hit_other_size : Hit :=
  {[ "name" := PyStr "/data/pcap/sub/dir/test.pcap"; "filesize" := PyInt 777 ]}.

(** A hit for the same path with the size 500 as the floating point number
    [500.0], which is [125 * 2 ^ 2]. *)
Definition hit_float_size : Hit :=
  {[ "name" := PyStr "/data/pcap/sub/dir/test.pcap"; "filesize" := PyFloat 125 2 ]}.

(** The backend answers at once; the shutdown signal arrives at time 20. *)
Definition backend_up_shutdown_late : Env :=
  {| shuttingDown := fun t => (20 <=? t)%nat; sigusr1 := fun _ => false;
     connect_try := fun _ => Completed; health_try := fun _ => None |}.

(** No shutdown; one SIGUSR1, delivered at time 4. *)
Definition one_usr1 : Env :=
  {| shuttingDown := fun _ => false; sigusr1 := fun t => bool_decide (t = 4%nat);
     connect_try := fun _ => Completed; health_try := fun _ => None |}.

(** The directories named [live] under the base directory are watched; the
    first of them appears between the first and the second call of
    [glob.glob]. *)
Definition args_recursive : Args :=
  {| minBytes := 24; maxBytes := 1000;
     opensearchUrl := None; opensearchWaitForHealth := false;
     nodeName := "malcolm"; ignoreExisting := false; includeAbsolutePath := false;
     startSleepSec := 0; recursiveDir := Some "live"; baseDir := "/data/pcap" |}.

Definition fs_recursive : FileSystem :=
  {| os_getcwd := "/";
     os_path_isdir := fun d => bool_decide (d = "/data/pcap");
     os_listdir := fun _ => [];
     is_file := fun _ => false;
     glob_glob := fun k _ => if (k <? 1)%nat then [] else ["/data/pcap/sensor/live"] |}.

(** A hit that has no size. *)
Definition hit_without_size : Hit := {[ "name" := PyStr "/data/pcap/sub/dir/test.pcap" ]}.

(** An absolute watch directory with one regular file and one directory. *)
Definition fs_absolute : FileSystem :=
  {| os_getcwd := "/";
     os_path_isdir := fun d => bool_decide (d = "/data/pcap") || bool_decide (d = "/data/pcap/sub");
     os_listdir := fun d => if bool_decide (d = "/data/pcap") then ["a.pcap"; "sub"] else [];
     is_file := fun f => bool_decide (f = "/data/pcap/a.pcap");
     glob_glob := fun _ _ => [] |}.

End Sample2.

(** * Properties *)

(** ** Strings and paths *)


Lemma append_cons (a : ascii) (p r : string) : String a p +:+ r = String a (p +:+ r).
Proof. reflexivity. Qed.

Lemma append_assoc (p q r : string) : (p +:+ q) +:+ r = p +:+ (q +:+ r).
Proof. induction p as [|a p IH]; [done|]. by rewrite !append_cons, IH. Qed.

Lemma startswith_app (p r : string) : PyStr.startswith (p +:+ r) p = true.
Proof.
  induction p as [|a p IH]; [done|].
  rewrite append_cons. simpl. by rewrite Ascii.eqb_refl.
Qed.

Lemma startswith_split (text p : string) :
  PyStr.startswith text p = true ->
  text = p +:+ PyStr.slice_from (String.length p) text.
Proof.
  revert text; induction p as [|a p IH]; intros text H; simpl in *; [done|].
  destruct text as [|b text]; [done|].
  destruct (Ascii.eqb b a) eqn:E; [|done].
  apply Ascii.eqb_eq in E as ->. rewrite append_cons. f_equal. by apply IH.
Qed.

Lemma startswith_spec (text p : string) :
  PyStr.startswith text p = true <-> exists r, text = p +:+ r.
Proof.
  split.
  - intros H. eexists. by apply startswith_split.
  - intros [r ->]. apply startswith_app.
Qed.


Lemma slice_from_app (p r : string) : PyStr.slice_from (String.length p) (p +:+ r) = r.
Proof. induction p; [done|]. by rewrite append_cons. Qed.

Lemma contains_spec (sub text : string) :
  PyStr.contains sub text = true <-> exists pre post, text = pre +:+ sub +:+ post.
Proof.
  split.
  - induction text as [|a text IH]; simpl; rewrite orb_true_iff.
    + intros [H|H]; [|done].
      apply startswith_spec in H as [r ->]. by exists "", r.
    + intros [H|H].
      * apply startswith_spec in H as [r Hr]. exists "", r. by rewrite Hr.
      * destruct (IH H) as (pre & post & ->). by exists (String a pre), post.
  - intros (pre & post & ->).
    induction pre as [|a pre IH]; simpl.
    + destruct (sub +:+ post) eqn:E; simpl; rewrite <- E, startswith_app; done.
    + rewrite IH. apply orb_true_r.
Qed.


(** ** The monad of the handler *)

Lemma sends_bind {A B} (m : M A) (k : A -> M B) (a : A) :
  snd m = inr a -> sends (bind m k) = sends m ++ sends (k a).
Proof.
  destruct m as [tr [e|a']]; simpl; intros [= ->].
  unfold sends, bind. destruct (k a) as [tr' r]. simpl. apply omap_app.
Qed.

Lemma queries_bind {A B} (m : M A) (k : A -> M B) (a : A) :
  snd m = inr a -> queries (bind m k) = queries m ++ queries (k a).
Proof.
  destruct m as [tr [e|a']]; simpl; intros [= ->].
  unfold queries, bind. destruct (k a) as [tr' r]. simpl. apply omap_app.
Qed.

Lemma snd_bind {A B} (m : M A) (k : A -> M B) (a : A) :
  snd m = inr a -> snd (bind m k) = snd (k a).
Proof.
  destruct m as [tr [e|a']]; simpl; intros [= ->].
  unfold bind. by destruct (k a).
Qed.

Lemma sends_after_query {A} (q : SearchQuery) (tr : list Effect) (r : Exn + A) :
  sends (EQuery q :: tr, r) = sends (tr, r).
Proof. reflexivity. Qed.

Lemma queries_after_query {A} (q : SearchQuery) (tr : list Effect) (r : Exn + A) :
  queries (EQuery q :: tr, r) = q :: queries (tr, r).
Proof. reflexivity. Qed.

(** ** The handler, branch by branch *)

Lemma publish_sends im args w event fileSize fileMime fileType :
  sends (publish im args w event fileSize fileMime fileType)
  = [json_dumps im (fileInfo im args event fileSize fileMime fileType)]
  /\ queries (publish im args w event fileSize fileMime fileType) = [].
Proof.
  unfold publish, topic_socket_send_string, try_except, bind, ret, sends, queries.
  destruct (send_string w _) as [[]|]; done.
Qed.

Lemma publish_result im args w event fileSize fileMime fileType :
  snd (publish im args w event fileSize fileMime fileType) =
  match send_string w (json_dumps im (fileInfo im args event fileSize fileMime fileType)) with
  | None => inr Sent
  | Some ZmqAgain => inr SendAbandoned
  | Some e => inl e
  end.
Proof.
  unfold publish, topic_socket_send_string, try_except, bind, ret.
  destruct (send_string w _) as [[]|]; done.
Qed.

Lemma publish_reached im args w event fileSize fileMime fileType :
  reached_duplicate_check (publish im args w event fileSize fileMime fileType) = true.
Proof.
  unfold reached_duplicate_check. rewrite publish_result.
  destruct (send_string w _) as [[]|]; done.
Qed.

Lemma scan_hits_spec (hits : list Hit) (fileSize : Z) (b : bool) :
  scan_hits hits fileSize b = true <->
  b = true \/ exists hit, hit ∈ hits /\ size_matches fileSize hit.
Proof.
  induction hits as [|h hits IH]; simpl.
  - split; [auto|]. intros [?|(hit & Hin & _)]; [done|]. by apply elem_of_nil in Hin.
  - destruct (h !! ARKIME_FILE_SIZE_FIELD) as [v|] eqn:Hv.
    + destruct (py_eq_int v fileSize) eqn:Heq.
      * split; [|done]. intros _. right. exists h. split; [left|]. by exists v.
      * rewrite IH. split.
        -- intros [?|(hit & Hin & Hm)]; [by left|]. right. exists hit. split; [by right|done].
        -- intros [?|(hit & Hin & Hm)]; [by left|].
           apply elem_of_cons in Hin as [->|Hin]; [|right; eauto].
           destruct Hm as (v' & Hv' & Heq'). congruence.
    + rewrite IH. split.
      * intros [?|(hit & Hin & Hm)]; [by left|]. right. exists hit. split; [by right|done].
      * intros [?|(hit & Hin & Hm)]; [by left|].
        apply elem_of_cons in Hin as [->|Hin]; [|right; eauto].
        destruct Hm as (v' & Hv' & Heq'). congruence.
Qed.

Lemma size_and_type_ok_spec im args fileSize fileMime fileType :
  size_and_type_ok im args fileSize fileMime fileType = true <->
  (minBytes args <= fileSize <= maxBytes args) /\
  (fileMime ∈ PCAP_MIME_TYPES im \/ exists pre post, fileType = pre +:+ "pcap-ng" +:+ post).
Proof.
  unfold size_and_type_ok.
  rewrite !andb_true_iff, orb_true_iff, bool_decide_eq_true, contains_spec.
  rewrite !Z.leb_le. tauto.
Qed.

Lemma handler_not_a_file im args self w event :
  negb (dir event) && os_path_isfile w (pathname event) = false ->
  _method_name im args self w event = ([], inr NotAFile).
Proof. unfold _method_name. by intros ->. Qed.

Lemma handler_rejected im args self w event :
  regular_file w event -> ~ passes_filter im args w event ->
  _method_name im args self w event = ([], inr Rejected).
Proof.
  intros [Hd Hf] Hno. unfold _method_name. rewrite Hd, Hf. simpl.
  unfold passes_filter in Hno. by destruct (size_and_type_ok _ _ _ _ _).
Qed.

Lemma handler_without_oracle im args self w event :
  regular_file w event -> passes_filter im args w event ->
  useOpenSearch self = false ->
  _method_name im args self w event
  = publish im args w event (os_path_getsize w (pathname event))
      (magic_from_file_mime w (pathname event)) (magic_from_file w (pathname event)).
Proof.
  intros [Hd Hf] Hok Hno. unfold _method_name, check_duplicate.
  rewrite Hd, Hf, Hok, Hno. simpl.
  by destruct (publish _ _ _ _ _ _ _).
Qed.

Lemma handler_query_raises im args self w event e :
  regular_file w event -> passes_filter im args w event ->
  useOpenSearch self = true ->
  Search_execute w (duplicate_query args event) = inl e ->
  _method_name im args self w event = ([EQuery (duplicate_query args event)], inl e).
Proof.
  intros [Hd Hf] Hok Hyes Hq. unfold _method_name, check_duplicate, execute.
  rewrite Hd, Hf, Hok, Hyes. simpl. by rewrite Hq.
Qed.

Lemma handler_with_hits im args self w event hits :
  regular_file w event -> passes_filter im args w event ->
  useOpenSearch self = true ->
  Search_execute w (duplicate_query args event) = inr hits ->
  _method_name im args self w event =
  if scan_hits hits (os_path_getsize w (pathname event)) false
  then ([EQuery (duplicate_query args event)], inr DuplicateSkipped)
  else
    let '(tr, r) := publish im args w event (os_path_getsize w (pathname event))
      (magic_from_file_mime w (pathname event)) (magic_from_file w (pathname event)) in
    (EQuery (duplicate_query args event) :: tr, r).
Proof.
  intros [Hd Hf] Hok Hyes Hq. unfold _method_name, check_duplicate, execute.
  rewrite Hd, Hf, Hok, Hyes. simpl. rewrite Hq. simpl.
  destruct (scan_hits _ _ _); [done|].
  by destruct (publish _ _ _ _ _ _ _).
Qed.

Lemma handler_reached_iff im args self w event :
  regular_file w event ->
  reached_duplicate_check (_method_name im args self w event) = true <->
  passes_filter im args w event.
Proof.
  intros Hreg. split.
  - intros Hr. unfold passes_filter.
    destruct (size_and_type_ok _ _ _ _ _) eqn:Hno; [done|].
    assert (~ passes_filter im args w event) as Hno' by (unfold passes_filter; congruence).
    rename Hno' into Hn.
    by rewrite (handler_rejected _ _ _ _ _ Hreg Hn) in Hr.
  - intros Hok. destruct (useOpenSearch self) eqn:Huse.
    + destruct (Search_execute w (duplicate_query args event)) as [e|hits] eqn:Hq.
      * by rewrite (handler_query_raises _ _ _ _ _ _ Hreg Hok Huse Hq).
      * rewrite (handler_with_hits _ _ _ _ _ _ Hreg Hok Huse Hq).
        destruct (scan_hits _ _ _); [done|].
        pose proof (publish_reached im args w event (os_path_getsize w (pathname event))
          (magic_from_file_mime w (pathname event)) (magic_from_file w (pathname event))) as Hp.
        by destruct (publish _ _ _ _ _ _ _).
    + rewrite (handler_without_oracle _ _ _ _ _ Hreg Hok Huse). apply publish_reached.
Qed.

(** The bounds of the size test are inclusive. *)
Lemma size_filter_boundaries im args fileMime fileType :
  size_and_type_ok im args (minBytes args - 1) fileMime fileType = false /\
  size_and_type_ok im args (maxBytes args + 1) fileMime fileType = false /\
  (minBytes args <= maxBytes args ->
   size_and_type_ok im args (minBytes args) fileMime fileType
   = (bool_decide (fileMime ∈ PCAP_MIME_TYPES im) || PyStr.contains "pcap-ng" fileType) /\
   size_and_type_ok im args (maxBytes args) fileMime fileType
   = (bool_decide (fileMime ∈ PCAP_MIME_TYPES im) || PyStr.contains "pcap-ng" fileType)).
Proof.
  unfold size_and_type_ok. repeat split.
  - replace (minBytes args <=? minBytes args - 1) with false; [done|]. symmetry. apply Z.leb_gt. lia.
  - replace (maxBytes args + 1 <=? maxBytes args) with false.
    + by rewrite andb_false_r.
    + symmetry. apply Z.leb_gt. lia.
  - rewrite Z.leb_refl. simpl. replace (minBytes args <=? maxBytes args) with true; [done|].
    symmetry. by apply Z.leb_le.
  - rewrite Z.leb_refl, andb_true_r. replace (minBytes args <=? maxBytes args) with true; [done|].
    symmetry. by apply Z.leb_le.
Qed.

(** ** The size and type filter *)

(** C1. For an event whose target is a regular file, the handler goes on to
    the duplicate check exactly when [minBytes <= fileSize <= maxBytes] (both
    bounds included) and the MIME type is one of [PCAP_MIME_TYPES] or the type
    description contains ["pcap-ng"]; an event that is rejected hands nothing
    to the socket. *)
Theorem filter_accepts_iff_size_and_type im args self w event :
  regular_file w event ->
  let fileSize := os_path_getsize w (pathname event) in
  let fileMime := magic_from_file_mime w (pathname event) in
  let fileType := magic_from_file w (pathname event) in
  let r := _method_name im args self w event in
  (reached_duplicate_check r = true <->
     (minBytes args <= fileSize <= maxBytes args) /\
     (fileMime ∈ PCAP_MIME_TYPES im \/
      exists pre post, fileType = pre +:+ "pcap-ng" +:+ post))
  /\ (reached_duplicate_check r = false ->
      snd r = inr Rejected /\ sends r = [] /\ queries r = []).
Proof.
  intros Hreg fileSize fileMime fileType r. split.
  - subst r. rewrite (handler_reached_iff _ _ _ _ _ Hreg).
    apply size_and_type_ok_spec.
  - intros Hr. subst r.
    assert (~ passes_filter im args w event) as Hno.
    { intros Hok. apply (handler_reached_iff im args self) in Hok; [congruence|done]. }
    by rewrite (handler_rejected _ _ _ _ _ Hreg Hno).
Qed.

(** ** The duplicate check *)

Lemma duplicate_iff_hits_helper im args self w event hits :
  regular_file w event -> passes_filter im args w event ->
  useOpenSearch self = true ->
  Search_execute w (duplicate_query args event) = inr hits ->
  (forall hit, hit ∈ hits -> ~ size_matches (os_path_getsize w (pathname event)) hit) ->
  sends (_method_name im args self w event) = [message_of im args w event].
Proof.
  intros Hreg Hok Huse Hq Hnone.
  rewrite (handler_with_hits _ _ _ _ _ _ Hreg Hok Huse Hq).
  destruct (scan_hits _ _ _) eqn:Hdup.
  - apply scan_hits_spec in Hdup as [?|(hit & Hin & Hm)]; [done|]. by destruct (Hnone hit Hin).
  - pose proof (publish_sends im args w event (os_path_getsize w (pathname event))
      (magic_from_file_mime w (pathname event)) (magic_from_file w (pathname event))) as [Hs _].
    destruct (publish _ _ _ _ _ _ _) as [tr res]. by rewrite sends_after_query.
Qed.

Lemma handler_duplicate_iff_size_matches im args self w event hits :
  regular_file w event -> passes_filter im args w event ->
  useOpenSearch self = true ->
  Search_execute w (duplicate_query args event) = inr hits ->
  let fileSize := os_path_getsize w (pathname event) in
  let r := _method_name im args self w event in
  queries r =
    [{| q_index := "arkime_files"; q_term_node := nodeName args;
        q_wildcard_name := "*" +:+ "/" +:+ relativePath args event |}]
  /\ (snd r = inr DuplicateSkipped <-> exists hit, hit ∈ hits /\ size_matches fileSize hit)
  /\ (snd r = inr DuplicateSkipped -> sends r = [])
  /\ ((forall hit, hit ∈ hits -> ~ size_matches fileSize hit) ->
      snd r <> inr DuplicateSkipped /\ sends r = [message_of im args w event]).
Proof.
  intros Hreg Hok Huse Hq fileSize r. subst r.
  rewrite (handler_with_hits _ _ _ _ _ _ Hreg Hok Huse Hq).
  pose proof (scan_hits_spec hits fileSize false) as Hscan.
  pose proof (publish_sends im args w event fileSize
    (magic_from_file_mime w (pathname event)) (magic_from_file w (pathname event))) as [Hs Hqs].
  pose proof (publish_result im args w event fileSize
    (magic_from_file_mime w (pathname event)) (magic_from_file w (pathname event))) as Hres.
  fold fileSize.
  destruct (scan_hits hits fileSize false) eqn:Hdup.
  - assert (exists hit, hit ∈ hits /\ size_matches fileSize hit) as Hex.
    { destruct Hscan as [[?|?] _]; done. }
    split; [done|]. split; [done|]. split; [done|].
    intros Hnone. destruct Hex as (hit & Hin & Hm). by destruct (Hnone hit Hin).
  - assert (~ exists hit, hit ∈ hits /\ size_matches fileSize hit) as Hnex.
    { intros Hex. destruct Hscan as [_ Hback]. by discriminate Hback; right. }
    destruct (publish _ _ _ _ _ _ _) as [tr res] eqn:Hp.
    rewrite sends_after_query, queries_after_query, Hs, Hqs. simpl in Hres |- *.
    assert (res <> inr DuplicateSkipped) as Hne.
    { rewrite Hres. destruct (send_string w _) as [[]|]; done. }
    split; [done|]. split; [split; [done|by intros Hex; destruct Hnex]|].
    split; [done|]. intros _. split; done.
Qed.

Lemma size_matches_iff_hit_has_size (fileSize : Z) (hit : Hit) :
  size_matches fileSize hit <-> hit_has_size fileSize hit.
Proof.
  unfold size_matches, hit_has_size. split.
  - intros (v & -> & Heq). destruct v as [|b|z|m e|?|?]; simpl in Heq; try done.
    + by apply Z.eqb_eq.
    + by apply Z.eqb_eq.
    + destruct (0 <=? e) eqn:He.
      * left. split; [by apply Z.leb_le|by apply Z.eqb_eq].
      * right. split; [by apply Z.leb_gt|by apply Z.eqb_eq].
  - destruct (hit !! ARKIME_FILE_SIZE_FIELD) as [[|b|z|m e|?|?]|]; try done.
    + intros Hb. exists (PyBool b). split; [done|]. by apply Z.eqb_eq.
    + intros Hz. exists (PyInt z). split; [done|]. by apply Z.eqb_eq.
    + intros Hf. exists (PyFloat m e). split; [done|]. simpl.
      destruct Hf as [[He Hv]|[He Hv]].
      * rewrite (proj2 (Z.leb_le 0 e) He). by apply Z.eqb_eq.
      * rewrite (proj2 (Z.leb_gt 0 e) He). by apply Z.eqb_eq.
Qed.

(** C2. With the oracle in use, the file of an accepted event is taken for
    a duplicate exactly when one of the hits of the response to the query
    (term filter on the node name, wildcard on ["*/" + relativePath]) has a
    [filesize] field equal to the size of the file. A hit with that integer
    size makes it a duplicate; hits whose sizes are all other integers do
    not, and the file is sent. *)
Theorem duplicate_iff_some_hit_has_size im args self w event hits :
  regular_file w event -> passes_filter im args w event ->
  useOpenSearch self = true ->
  Search_execute w (duplicate_query args event) = inr hits ->
  let fileSize := os_path_getsize w (pathname event) in
  let r := _method_name im args self w event in
  queries r =
    [{| q_index := "arkime_files"; q_term_node := nodeName args;
        q_wildcard_name := "*" +:+ "/" +:+ relativePath args event |}]
  /\ (snd r = inr DuplicateSkipped <-> exists hit, hit ∈ hits /\ hit_has_size fileSize hit)
  /\ (snd r = inr DuplicateSkipped -> sends r = [])
  /\ ((exists hit, hit ∈ hits /\ hit !! ARKIME_FILE_SIZE_FIELD = Some (PyInt fileSize)) ->
      snd r = inr DuplicateSkipped)
  /\ ((forall hit v, hit ∈ hits -> hit !! ARKIME_FILE_SIZE_FIELD = Some v ->
         exists z, v = PyInt z /\ z <> fileSize) ->
      snd r <> inr DuplicateSkipped /\ sends r = [message_of im args w event]).
Proof.
  intros Hreg Hok Huse Hq fileSize r.
  destruct (handler_duplicate_iff_size_matches im args self w event hits Hreg Hok Huse Hq)
    as (Hqs & Hiff & Hskip & Hnone).
  fold fileSize r in Hqs, Hiff, Hskip, Hnone.
  assert (snd r = inr DuplicateSkipped <->
          exists hit, hit ∈ hits /\ hit_has_size fileSize hit) as Hiff'.
  { rewrite Hiff. split; intros (hit & Hin & Hm); exists hit; split; try done;
      by apply size_matches_iff_hit_has_size. }
  split; [done|]. split; [done|]. split; [done|]. split.
  - intros (hit & Hin & Hsize). apply Hiff'. exists hit. split; [done|].
    unfold hit_has_size. by rewrite Hsize.
  - intros Hother. apply Hnone. intros hit Hin Hm.
    apply size_matches_iff_hit_has_size in Hm. unfold hit_has_size in Hm.
    destruct (hit !! ARKIME_FILE_SIZE_FIELD) as [v|] eqn:Hv; [|done].
    destruct (Hother hit v Hin Hv) as (z & -> & Hne). done.
Qed.

(** C5, as the code has it. With the oracle in use, an exception raised by
    the duplicate query of an accepted event is not caught in the handler:
    the handler ends with that exception after the one query, and nothing is
    handed to the socket. *)
Theorem query_error_leaves_the_handler im args self w event e :
  regular_file w event -> passes_filter im args w event ->
  useOpenSearch self = true ->
  Search_execute w (duplicate_query args event) = inl e ->
  let r := _method_name im args self w event in
  snd r = inl e /\ sends r = [] /\ queries r = [duplicate_query args event].
Proof.
  intros Hreg Hok Huse Hq r. subst r.
  by rewrite (handler_query_raises _ _ _ _ _ _ Hreg Hok Huse Hq).
Qed.

(** ** The published record *)

Lemma record_keys_distinct im :
  NoDup (record_keys im) ->
  FILE_INFO_DICT_NAME im <> FILE_INFO_DICT_SIZE im /\
  FILE_INFO_DICT_NAME im <> FILE_INFO_FILE_MIME im /\
  FILE_INFO_DICT_NAME im <> FILE_INFO_FILE_TYPE im /\
  FILE_INFO_DICT_NAME im <> FILE_INFO_DICT_NODE im /\
  FILE_INFO_DICT_NAME im <> FILE_INFO_DICT_TAGS im /\
  FILE_INFO_DICT_SIZE im <> FILE_INFO_FILE_MIME im /\
  FILE_INFO_DICT_SIZE im <> FILE_INFO_FILE_TYPE im /\
  FILE_INFO_DICT_SIZE im <> FILE_INFO_DICT_NODE im /\
  FILE_INFO_DICT_SIZE im <> FILE_INFO_DICT_TAGS im /\
  FILE_INFO_FILE_MIME im <> FILE_INFO_FILE_TYPE im /\
  FILE_INFO_FILE_MIME im <> FILE_INFO_DICT_NODE im /\
  FILE_INFO_FILE_MIME im <> FILE_INFO_DICT_TAGS im /\
  FILE_INFO_FILE_TYPE im <> FILE_INFO_DICT_NODE im /\
  FILE_INFO_FILE_TYPE im <> FILE_INFO_DICT_TAGS im /\
  FILE_INFO_DICT_NODE im <> FILE_INFO_DICT_TAGS im.
Proof.
  unfold record_keys. rewrite !NoDup_cons, !not_elem_of_cons. tauto.
Qed.

Lemma fileInfo_fields im args event fileSize fileMime fileType :
  NoDup (record_keys im) ->
  let info := fileInfo im args event fileSize fileMime fileType in
  dom info = list_to_set (record_keys im)
  /\ info !! FILE_INFO_DICT_NAME im
     = Some (PyStr (if includeAbsolutePath args then pathname event
                    else relativePath args event))
  /\ info !! FILE_INFO_DICT_SIZE im = Some (PyInt fileSize)
  /\ info !! FILE_INFO_FILE_MIME im = Some (PyStr fileMime)
  /\ info !! FILE_INFO_FILE_TYPE im = Some (PyStr fileType)
  /\ info !! FILE_INFO_DICT_NODE im = Some (PyStr (nodeName args))
  /\ info !! FILE_INFO_DICT_TAGS im
     = Some (PyList (tags_from_filename im (relativePath args event))).
Proof.
  intros Hnd info. subst info. unfold fileInfo. split.
  - clear Hnd. rewrite !dom_insert_L, dom_empty_L. unfold record_keys.
    apply set_eq. intros x. simpl.
    rewrite !elem_of_union, !elem_of_singleton. tauto.
  - apply record_keys_distinct in Hnd.
    destruct Hnd as (?&?&?&?&?&?&?&?&?&?&?&?&?&?&?).
    repeat split; by simplify_map_eq.
Qed.

(** C7. An event that passes the filter and the duplicate check hands
    exactly one message to the socket, the serialisation of a dictionary with
    exactly the six keys of the record: the name (the absolute path of the
    event when [includeAbsolutePath] is set, the relative path otherwise),
    the size, the MIME type, the type description, the node name and the
    tags of the relative path. A rejected or duplicate event hands nothing to
    the socket. *)
Theorem one_record_per_accepted_event im args self w event :
  NoDup (record_keys im) ->
  let r := _method_name im args self w event in
  let info := record_of im args w event in
  (regular_file w event -> passes_filter im args w event ->
   no_duplicate_found args self w event ->
   sends r = [json_dumps im info])
  /\ (dom info = list_to_set (record_keys im)
      /\ info !! FILE_INFO_DICT_NAME im
         = Some (PyStr (if includeAbsolutePath args then pathname event
                        else relativePath args event))
      /\ info !! FILE_INFO_DICT_SIZE im = Some (PyInt (os_path_getsize w (pathname event)))
      /\ info !! FILE_INFO_FILE_MIME im = Some (PyStr (magic_from_file_mime w (pathname event)))
      /\ info !! FILE_INFO_FILE_TYPE im = Some (PyStr (magic_from_file w (pathname event)))
      /\ info !! FILE_INFO_DICT_NODE im = Some (PyStr (nodeName args))
      /\ info !! FILE_INFO_DICT_TAGS im
         = Some (PyList (tags_from_filename im (relativePath args event))))
  /\ (~ regular_file w event \/ ~ passes_filter im args w event
      \/ (regular_file w event /\ passes_filter im args w event
          /\ found_duplicate args self w event) ->
      sends r = []).
Proof.
  intros Hnd r info. split; [|split].
  - intros Hreg Hok [Hno|(hits & Hq & Hnone)]; subst r.
    + rewrite (handler_without_oracle _ _ _ _ _ Hreg Hok Hno). apply publish_sends.
    + destruct (useOpenSearch self) eqn:Huse.
      * by apply (duplicate_iff_hits_helper im args self w event hits).
      * rewrite (handler_without_oracle _ _ _ _ _ Hreg Hok Huse). apply publish_sends.
  - by apply fileInfo_fields.
  - intros [Hnreg|[Hnok|(Hreg & Hok & Huse & hits & Hq & hit & Hin & Hm)]]; subst r.
    + rewrite handler_not_a_file; [done|].
      destruct (dir event) eqn:Hd; [done|]. simpl.
      destruct (os_path_isfile w (pathname event)) eqn:Hf; [|done].
      by destruct Hnreg.
    + destruct (negb (dir event) && os_path_isfile w (pathname event)) eqn:Hreg.
      * apply andb_true_iff in Hreg as [Hd Hf]. apply negb_true_iff in Hd.
        by rewrite (handler_rejected im args self w event (conj Hd Hf) Hnok).
      * by rewrite handler_not_a_file.
    + rewrite (handler_with_hits _ _ _ _ _ _ Hreg Hok Huse Hq).
      replace (scan_hits hits (os_path_getsize w (pathname event)) false) with true; [done|].
      symmetry. apply scan_hits_spec. right. eauto.
Qed.

(** ** Loops and the shutdown flag *)

Lemma sleeps_from_app t0 (a b : list (nat * Action)) :
  sleeps_from t0 (a ++ b) = (sleeps_from t0 a + sleeps_from t0 b)%nat.
Proof. unfold sleeps_from. by rewrite List.filter_app, length_app. Qed.

Lemma sleeps_from_le_count t0 (tr : list (nat * Action)) :
  (sleeps_from t0 tr <= count_sleeps tr)%nat.
Proof.
  unfold sleeps_from, count_sleeps.
  induction tr as [|[t a] tr IH]; simpl; [lia|].
  destruct (is_sleep a); simpl; [|done].
  destruct (t0 <=? t)%nat; simpl; lia.
Qed.

Lemma sleeps_from_before t0 (tr : list (nat * Action)) :
  Forall (fun ta => (ta.1 < t0)%nat) tr -> sleeps_from t0 tr = O.
Proof.
  unfold sleeps_from. induction 1 as [|[t a] tr Ht _ IH]; simpl; [done|].
  simpl in Ht. replace (t0 <=? t)%nat with false; [by rewrite andb_false_r|].
  symmetry. apply Nat.leb_gt. lia.
Qed.

Section prompt_exit.

Context {S : Type} (timeline : S -> Timeline) (flag : nat -> bool).
Context (cond : S -> bool) (body : S -> Step S).

Hypothesis flag_never_cleared : never_cleared flag.
Hypothesis cond_tests_flag :
  forall s, cond s = true -> flag (clock (timeline s)) = false.
Hypothesis body_one_pass :
  forall s, cond s = true -> one_pass (timeline s) (timeline (step_state (body s))).

Lemma while_stops_when_flag_set (t0 : nat) (s : S) (fuel : nat) :
  flag t0 = true -> (t0 <= clock (timeline s))%nat ->
  while cond body fuel s = Finished s.
Proof.
  intros Hset Hle.
  assert (cond s = false) as Hc.
  { destruct (cond s) eqn:Hc; [|done].
    apply cond_tests_flag in Hc.
    rewrite (flag_never_cleared t0 _ Hle Hset) in Hc. done. }
  destruct fuel; simpl; by rewrite Hc.
Qed.

Lemma while_exits_promptly (t0 : nat) :
  flag t0 = true ->
  forall s, exits_promptly t0 timeline (while cond body) s.
Proof.
  intros Hset s.
  remember (t0 - clock (timeline s))%nat as n eqn:Hn.
  assert (t0 <= clock (timeline s) + n)%nat as Hle by lia. clear Hn.
  revert s Hle. unfold exits_promptly. induction n as [|n IH]; intros s Hle.
  - exists O. rewrite (while_stops_when_flag_set t0); [|done|lia].
    split; [done|]. exists []. rewrite app_nil_r. split; [done|]. unfold sleeps_from; simpl; lia.
  - destruct (cond s) eqn:Hc.
    2:{ exists O. simpl. rewrite Hc. split; [done|]. exists []. rewrite app_nil_r.
        split; [done|]. unfold sleeps_from; simpl; lia. }
    destruct (body_one_pass s Hc) as (Hclk & new & Htr & Hin & Hcount).
    pose proof (sleeps_from_le_count t0 new) as Hfrom.
    destruct (body s) as [s'|s'|e s'] eqn:Hb; simpl in *.
    + destruct (Nat.le_gt_cases t0 (clock (timeline s'))) as [Hlate|Hearly].
      * pose proof (while_stops_when_flag_set t0 s' O Hset Hlate) as Hstop.
        exists 1%nat. simpl in *. rewrite Hc, Hb, Hstop.
        split; [done|]. exists new. split; [done|lia].
      * destruct (IH s') as (fuel & Hex & new' & Htr' & Hcount'); [lia|].
        exists (Datatypes.S fuel). simpl. rewrite Hc, Hb. split; [done|].
        exists (new ++ new'). split; [by rewrite Htr', Htr, app_assoc|].
        rewrite sleeps_from_app, (sleeps_from_before t0 new); [lia|].
        eapply Forall_impl; [exact Hin|]. simpl. intros; lia.
    + exists 1%nat. simpl. rewrite Hc, Hb. split; [done|]. exists new. split; [done|lia].
    + exists 1%nat. simpl. rewrite Hc, Hb. split; [done|]. exists new. split; [done|lia].
Qed.

End prompt_exit.

Ltac solve_one_pass :=
  unfold one_pass; simpl; split;
  [ lia
  | eexists; split;
    [ rewrite <- ?app_assoc; reflexivity
    | split; [ simpl; repeat constructor; simpl; lia
             | unfold count_sleeps; simpl; lia ] ] ].

Lemma client_assigned (url : string) : bool_decide (is_Some (Some url)) = true.
Proof. apply bool_decide_eq_true_2. by exists url. Qed.

Lemma connect_body_one_pass args url env s :
  one_pass (tl s) (tl (step_state (connect_body args url env s))).
Proof.
  unfold connect_body. rewrite client_assigned.
  destruct (connect_try env _), (opensearchWaitForHealth args), (connected s);
    solve_one_pass.
Qed.

Lemma health_body_one_pass env s :
  one_pass (tl s) (tl (step_state (health_body env s))).
Proof.
  unfold health_body.
  destruct (health_try env _) as [e|]; [destruct (is_connection_error e), (healthy s)|];
    solve_one_pass.
Qed.

Lemma warmup_body_one_pass s :
  one_pass (sl_tl s) (sl_tl (step_state (warmup_body s))).
Proof. unfold warmup_body. solve_one_pass. Qed.

Lemma polling_body_one_pass env s :
  one_pass (p_tl s) (p_tl (step_state (polling_body env s))).
Proof. unfold polling_body. destruct (_ || _); solve_one_pass. Qed.

(** C8. Once the shutdown flag is set, each of the four loops that sleep
    (the connection loop, the health loop, the warm-up loop and the polling
    loop of [main]) is left after finitely many passes, and at most one of
    its sleeps begins after the flag was set: every pass begins with a test
    of the flag. *)
Theorem loops_exit_within_one_sleep_of_shutdown args url env t0 :
  never_cleared (shuttingDown env) ->
  shuttingDown env t0 = true ->
  (forall s, exits_promptly t0 tl (connect_loop args url env) s)
  /\ (forall s, exits_promptly t0 tl (health_loop args env) s)
  /\ (forall s, exits_promptly t0 sl_tl (warmup_loop args env) s)
  /\ (forall s, exits_promptly t0 p_tl (polling_loop env) s).
Proof.
  intros Hmono Hset. repeat split; intros s.
  - apply (while_exits_promptly tl (shuttingDown env)); try done.
    + intros s' Hc. unfold connect_cond in Hc.
      apply andb_true_iff in Hc as [_ Hc]. by apply negb_true_iff in Hc.
    + intros s' _. apply connect_body_one_pass.
  - apply (while_exits_promptly tl (shuttingDown env)); try done.
    + intros s' Hc. unfold health_cond in Hc.
      apply andb_true_iff in Hc as [_ Hc]. by apply negb_true_iff in Hc.
    + intros s' _. apply health_body_one_pass.
  - apply (while_exits_promptly sl_tl (shuttingDown env)); try done.
    + intros s' Hc. unfold warmup_cond in Hc.
      apply andb_true_iff in Hc as [Hc _]. by apply negb_true_iff in Hc.
    + intros s' _. apply warmup_body_one_pass.
  - apply (while_exits_promptly p_tl (shuttingDown env)); try done.
    + intros s' Hc. unfold polling_cond in Hc. by apply negb_true_iff in Hc.
    + intros s' _. apply polling_body_one_pass.
Qed.

(** ** The constructor *)

Section while_facts.

Context {S : Type} (cond : S -> bool) (body : S -> Step S).

Lemma while_invariant (P : S -> Prop) :
  (forall s, cond s = true -> P s -> P (step_state (body s))) ->
  forall fuel s, P s -> P (result_state (while cond body fuel s)).
Proof.
  intros Hstep fuel. induction fuel as [|fuel IH]; intros s Hs; simpl.
  - by destruct (cond s).
  - destruct (cond s) eqn:Hc; [|done].
    specialize (Hstep s Hc Hs).
    destruct (body s) as [s'|s'|e s']; simpl in *; auto.
Qed.

Lemma while_finished fuel s s' :
  while cond body fuel s = Finished s' ->
  cond s' = false \/ exists s0, cond s0 = true /\ body s0 = Break s'.
Proof.
  revert s. induction fuel as [|fuel IH]; intros s; simpl.
  - destruct (cond s) eqn:Hc; [done|]. intros [= <-]. by left.
  - destruct (cond s) eqn:Hc.
    + destruct (body s) as [s1|s1|e s1] eqn:Hb; [apply IH| |done].
      intros [= <-]. right. eauto.
    + intros [= <-]. by left.
Qed.

Lemma while_raised fuel s e s' :
  while cond body fuel s = Raised e s' ->
  exists s0, cond s0 = true /\ body s0 = Raise e s'.
Proof.
  revert s. induction fuel as [|fuel IH]; intros s; simpl.
  - by destruct (cond s).
  - destruct (cond s) eqn:Hc; [|done].
    destruct (body s) as [s1|s1|e1 s1] eqn:Hb; [apply IH|done|].
    intros [= <- <-]. eauto.
Qed.

End while_facts.

Lemma connect_body_keeps_healthy args url env s :
  healthy (step_state (connect_body args url env s)) = healthy s.
Proof.
  unfold connect_body. rewrite client_assigned.
  by destruct (connect_try env _), (opensearchWaitForHealth args), (connected s).
Qed.

Lemma connect_loop_keeps_healthy args url env fuel s :
  healthy (result_state (connect_loop args url env fuel s)) = healthy s.
Proof.
  unfold connect_loop.
  apply (while_invariant _ _ (fun s' => healthy s' = healthy s)); [|done].
  intros s' _ <-. apply connect_body_keeps_healthy.
Qed.

Lemma health_loop_without_wait args env fuel s :
  opensearchWaitForHealth args = false ->
  health_loop args env fuel s = Finished s.
Proof.
  intros Hw. unfold health_loop.
  assert (health_cond args env s = false) as Hc.
  { unfold health_cond. rewrite Hw. by rewrite andb_false_r. }
  destruct fuel; simpl; by rewrite Hc.
Qed.

(** Without the wait for health, the constructor never enables the oracle. *)
Lemma init_without_wait_no_oracle args env fuel t self t' :
  opensearchWaitForHealth args = false ->
  EventWatcher_init args env fuel t = Finished (self, t') ->
  useOpenSearch self = false.
Proof.
  intros Hw. unfold EventWatcher_init.
  destruct (opensearchUrl args) as [url|]; [|by intros [= <- _]].
  pose proof (connect_loop_keeps_healthy args url env fuel
    {| tl := t; client := None; connected := false; healthy := false |}) as Hh.
  destruct (connect_loop _ _ _ _ _) as [s1|e s1|s1]; [|done|done].
  rewrite health_loop_without_wait by done. simpl in Hh.
  intros [= <- _]. simpl. rewrite Hh. apply andb_false_r.
Qed.

(** C3, at the failing input. An endpoint is configured, the wait for
    health is not requested and the first connection attempt succeeds: the
    constructor returns with the client set and [useOpenSearch] false, and
    with that watcher a file that the index already holds with the same size
    is sent all the same, without any query. *)
Theorem connected_without_wait_leaves_oracle_off :
  EventWatcher_init Sample.args Sample.backend_up 5 Sample.start
  = Finished ({| useOpenSearch := false; openSearchClient := Some Sample.url |},
              {| clock := 2; trace := [(1%nat, ConnectAttempt)] |})
  /\ _method_name Sample.imports Sample.args
       {| useOpenSearch := false; openSearchClient := Some Sample.url |}
       (Sample.world (inr [Sample.hit_500])) Sample.event
     = ([ESend "sub/dir/test.pcap"], inr Sent).
Proof. split; vm_compute; reflexivity. Qed.

(** ** The connection loop *)

Lemma while_resume {S : Type} (cond : S -> bool) (body : S -> Step S) n m s s' :
  while cond body n s = OutOfFuel s' ->
  while cond body (n + m) s = while cond body m s'.
Proof.
  revert s. induction n as [|n IH]; intros s; simpl.
  - destruct (cond s) eqn:Hc; [|done]. by intros [= <-].
  - destruct (cond s) eqn:Hc; [|done].
    destruct (body s) as [s1|s1|e s1]; [apply IH|done|done].
Qed.

Lemma connect_body_never_raises args url env s e s' :
  connect_body args url env s <> Raise e s'.
Proof.
  unfold connect_body. rewrite client_assigned.
  by destruct (connect_try env _), (opensearchWaitForHealth args), (connected s).
Qed.

Lemma connect_body_break_when_waiting args url env s s' :
  opensearchWaitForHealth args = true ->
  connect_body args url env s = Break s' -> connected s' = true.
Proof.
  intros Hw. unfold connect_body. rewrite client_assigned, Hw.
  destruct (connect_try env _), (connected s); simpl; by intros [= <-].
Qed.

(** A failed attempt, of either kind, is followed by a sleep of one second
    and the next test of the condition. *)
Lemma connect_body_failed_attempt args url env s :
  opensearchWaitForHealth args = true -> connected s = false ->
  connect_try env (S (clock (tl s))) <> Completed ->
  exists s', connect_body args url env s = Continue s' /\ connected s' = false /\
    clock (tl s') = (3 + clock (tl s))%nat /\
    trace (tl s') = trace (tl s)
      ++ [(S (clock (tl s)), ConnectAttempt); (S (S (clock (tl s))), Sleep 1000)].
Proof.
  intros Hw Hc Hfail. unfold connect_body. rewrite Hw. simpl.
  destruct (connect_try env _) as [e|e|]; [| |done]; simpl; rewrite Hc; simpl;
    eexists; (split; [reflexivity|]); simpl; by rewrite <- app_assoc.
Qed.

Lemma connect_loop_retries args url env :
  opensearchWaitForHealth args = true ->
  forall n s, connected s = false ->
  (forall t, (clock (tl s) <= t <= clock (tl s) + 3 * n)%nat ->
     shuttingDown env t = false /\ connect_try env t <> Completed) ->
  exists s', connect_loop args url env n s = OutOfFuel s' /\ connected s' = false /\
    clock (tl s') = (clock (tl s) + 3 * n)%nat /\
    trace (tl s') = trace (tl s) ++ retry_trace (clock (tl s)) n.
Proof.
  intros Hw. unfold connect_loop. induction n as [|n IH]; intros s Hc Hall.
  - exists s. simpl. unfold connect_cond. rewrite Hc.
    destruct (Hall (clock (tl s))) as [-> _]; [lia|]. simpl.
    repeat split; [lia|by rewrite app_nil_r].
  - destruct (Hall (clock (tl s))) as [Hflag _]; [lia|].
    destruct (Hall (S (clock (tl s)))) as [_ Hfail]; [lia|].
    destruct (connect_body_failed_attempt args url env s Hw Hc Hfail)
      as (s1 & Hb & Hc1 & Hclk & Htr).
    destruct (IH s1 Hc1) as (s' & Hrun & Hc' & Hclk' & Htr').
    { intros t Ht. apply Hall. lia. }
    exists s'. simpl. unfold connect_cond at 1. rewrite Hc, Hflag, Hb. simpl.
    split; [done|]. split; [done|]. split; [lia|].
    rewrite Htr', Htr, Hclk, <- app_assoc. done.
Qed.

(** C4, as the code has it. With the wait for health requested, the
    connection loop tries until an attempt succeeds or the shutdown flag is
    set: it ends only with a connection or with the flag set, no exception
    leaves it, and as long as the attempts fail and the flag is clear it tries
    again after a sleep of one second, any number of times. Without the wait
    for health it makes one attempt and ends, whether or not the attempt
    succeeded and without a sleep. *)
Theorem connect_loop_retries_only_when_waiting args url env s :
  connected s = false ->
  (opensearchWaitForHealth args = true ->
     (forall fuel s', connect_loop args url env fuel s = Finished s' ->
        connected s' = true \/ shuttingDown env (clock (tl s')) = true)
     /\ (forall fuel e s', connect_loop args url env fuel s <> Raised e s')
     /\ (forall n,
          (forall t, (clock (tl s) <= t <= clock (tl s) + 3 * n)%nat ->
             shuttingDown env t = false /\ connect_try env t <> Completed) ->
          exists s', connect_loop args url env n s = OutOfFuel s' /\
            trace (tl s') = trace (tl s) ++ retry_trace (clock (tl s)) n))
  /\ (opensearchWaitForHealth args = false ->
      shuttingDown env (clock (tl s)) = false ->
      forall fuel, exists s',
        connect_loop args url env (S fuel) s = Finished s' /\
        trace (tl s') = trace (tl s) ++ [(S (clock (tl s)), ConnectAttempt)] /\
        (connected s' = true <-> connect_try env (S (clock (tl s))) = Completed)).
Proof.
  intros Hc. split.
  - intros Hw. split; [|split].
    + intros fuel s' Hfin. apply while_finished in Hfin as [Hcond|(s0 & _ & Hb)].
      * unfold connect_cond in Hcond. apply andb_false_iff in Hcond as [H|H];
          apply negb_false_iff in H; auto.
      * left. by apply (connect_body_break_when_waiting args url env s0).
    + intros fuel e s' Hr. apply while_raised in Hr as (s0 & _ & Hb).
      by apply connect_body_never_raises in Hb.
    + intros n Hall.
      destruct (connect_loop_retries args url env Hw n s Hc Hall) as (s' & ? & _ & _ & ?).
      eauto.
  - intros Hw Hflag fuel. unfold connect_loop. simpl.
    unfold connect_cond at 1. rewrite Hc, Hflag. simpl.
    unfold connect_body. rewrite client_assigned, Hw. simpl.
    destruct (connect_try env _) as [e|e|]; simpl; rewrite ?Hc; simpl;
      eexists; (split; [reflexivity|]); simpl; split; done.
Qed.

Lemma connect_loop_without_wait_refused :
  connect_loop Sample.args Sample.url Sample.backend_down 10 Sample.not_connected
  = Finished {| tl := {| clock := 2; trace := [(1%nat, ConnectAttempt)] |};
                client := Some Sample.url; connected := false; healthy := false |}.
Proof. vm_compute. reflexivity. Qed.

(** C4, against the specification as written. An endpoint is configured, the wait for
    health is not requested, every connection is refused and no shutdown is
    requested: the loop ends after one attempt, not connected, without a
    sleep and without a second attempt. *)
Lemma connect_loop_gives_up_without_wait :
  opensearchUrl Sample.args = Some Sample.url
  /\ ~ ends_only_connected_or_shut_down
        Sample.args Sample.url Sample.backend_down Sample.not_connected.
Proof.
  split; [done|]. intros Hends.
  destruct (Hends _ _ connect_loop_without_wait_refused) as [Hc|[t Ht]]; done.
Qed.

(** ** No endpoint *)

Lemma process_events_without_oracle im args self evs :
  useOpenSearch self = false ->
  Forall (fun we : World * Event =>
            regular_file we.1 we.2 /\ passes_filter im args we.1 we.2 /\
            send_returns_or_again we.1 (message_of im args we.1 we.2)) evs ->
  sends (process_events im args self evs)
  = map (fun we : World * Event => message_of im args we.1 we.2) evs
  /\ queries (process_events im args self evs) = []
  /\ exists os, snd (process_events im args self evs) = inr os.
Proof.
  intros Hno. induction 1 as [|[w event] evs (Hreg & Hok & Hsend) _ (IHs & IHq & os & IHr)].
  - repeat split. by exists [].
  - simpl in *.
    pose proof (publish_sends im args w event (os_path_getsize w (pathname event))
      (magic_from_file_mime w (pathname event)) (magic_from_file w (pathname event))) as [Hs Hq].
    pose proof (publish_result im args w event (os_path_getsize w (pathname event))
      (magic_from_file_mime w (pathname event)) (magic_from_file w (pathname event))) as Hres.
    rewrite <- (handler_without_oracle im args self w event Hreg Hok Hno) in Hs, Hq, Hres.
    assert (exists o, snd (_method_name im args self w event) = inr o) as [o Ho].
    { rewrite Hres. fold (record_of im args w event). fold (message_of im args w event).
      destruct Hsend as [->| ->]; eauto. }
    rewrite (sends_bind _ _ o Ho), (queries_bind _ _ o Ho), (snd_bind _ _ o Ho).
    rewrite (sends_bind _ _ os IHr), (queries_bind _ _ os IHr), (snd_bind _ _ os IHr).
    rewrite Hs, Hq, IHs, IHq. simpl. repeat split; [by rewrite app_nil_r|eauto].
Qed.

(** C6. Without an endpoint the constructor returns at once with the
    oracle off; the handler then sends the record of every event that
    passes the file test and the filter, without a query, however often the
    same file was sent before. *)
Theorem no_endpoint_sends_every_accepted_file im args env fuel t :
  opensearchUrl args = None ->
  exists self,
    EventWatcher_init args env fuel t = Finished (self, t)
    /\ useOpenSearch self = false
    /\ (forall w event, regular_file w event -> passes_filter im args w event ->
          queries (_method_name im args self w event) = []
          /\ sends (_method_name im args self w event) = [message_of im args w event])
    /\ (forall evs,
          Forall (fun we : World * Event =>
                    regular_file we.1 we.2 /\ passes_filter im args we.1 we.2 /\
                    send_returns_or_again we.1 (message_of im args we.1 we.2)) evs ->
          sends (process_events im args self evs)
          = map (fun we : World * Event => message_of im args we.1 we.2) evs
          /\ queries (process_events im args self evs) = []).
Proof.
  intros Hnone. exists {| useOpenSearch := false; openSearchClient := None |}.
  unfold EventWatcher_init. rewrite Hnone. split; [done|]. split; [done|]. split.
  - intros w event Hreg Hok. rewrite handler_without_oracle by done.
    pose proof (publish_sends im args w event (os_path_getsize w (pathname event))
      (magic_from_file_mime w (pathname event)) (magic_from_file w (pathname event))) as [Hs Hq].
    by rewrite Hs, Hq.
  - intros evs Hall.
    destruct (process_events_without_oracle im args
      {| useOpenSearch := false; openSearchClient := None |} evs eq_refl Hall) as (? & ? & _).
    done.
Qed.

(** ** The relative path *)

Lemma startswith_append (text p x : string) :
  PyStr.startswith text p = true -> PyStr.startswith (text +:+ x) p = true.
Proof.
  rewrite !startswith_spec. intros [r ->]. exists (r +:+ x). apply append_assoc.
Qed.






(** ** The files found at startup *)

Lemma of_string_root_abs (d : string) :
  posixpath.isabs d = true -> pathlib.root (pathlib.of_string d) <> "".
Proof.
  unfold posixpath.isabs, posixpath.sep, pathlib.of_string. intros Habs.
  cbn [pathlib.root]. rewrite Habs. by destruct (_ && _).
Qed.

Lemma str_child_isabs (d name : string) :
  posixpath.isabs d = true ->
  posixpath.isabs (pathlib.str (pathlib.child (pathlib.of_string d) name)) = true.
Proof.
  intros Habs. pose proof (of_string_root_abs d Habs) as Hroot.
  unfold pathlib.str, pathlib.child. cbn [pathlib.root pathlib.parts] in *.
  rewrite bool_decide_eq_false_2 by done. cbn [andb].
  apply startswith_append.
  revert Habs. unfold posixpath.isabs, posixpath.sep, pathlib.of_string. intros Habs.
  cbn [pathlib.root]. rewrite Habs. by destruct (_ && _).
Qed.

Lemma join_absolute (a b : string) :
  posixpath.isabs b = true -> posixpath.join a b = b.
Proof. unfold posixpath.isabs, posixpath.join. by intros ->. Qed.

(** With absolute watch directories, the files touched are the regular files
    of the directories. *)
Lemma touch_preexisting_absolute args fs watchDirs :
  preexistingDir args fs = true -> ignoreExisting args = false ->
  Forall (fun d => posixpath.isabs d = true) watchDirs ->
  touch_preexisting args fs false watchDirs = flat_map (regular_files fs) watchDirs.
Proof.
  intros Hpre Hign Habs. unfold touch_preexisting. rewrite Hpre, Hign. simpl.
  induction Habs as [|d ds Hd _ IH]; simpl; [done|]. rewrite IH. f_equal.
  unfold regular_files. apply map_ext_in. intros x Hx.
  apply filter_In in Hx as [Hx _]. unfold iterdir in Hx.
  apply in_map_iff in Hx as (name & <- & _).
  apply join_absolute. by apply str_child_isabs.
Qed.

(** C9, at the failing input. The watch directory is given as the relative
    path ["pcap"]; it exists and holds the regular file ["pcap/a.pcap"]; the
    files found at startup are not to be ignored and no shutdown is
    requested. The one path given to [touch] is ["pcap/pcap/a.pcap"]: the
    file of the directory is not touched. *)
Theorem relative_watch_dir_touches_another_path :
  resolve_watchDirs Sample.args_relative Sample.fs 1 = Finished (O, ["pcap"])
  /\ preexistingDir Sample.args_relative Sample.fs = true
  /\ ignoreExisting Sample.args_relative = false
  /\ regular_files Sample.fs "pcap" = ["pcap/a.pcap"]
  /\ touch_preexisting Sample.args_relative Sample.fs false ["pcap"] = ["pcap/pcap/a.pcap"].
Proof. repeat split; vm_compute; reflexivity. Qed.

(** ** The properties at sample inputs *)

Lemma sample_regular_file answer : regular_file (Sample.world answer) Sample.event.
Proof. split; reflexivity. Defined.

Lemma sample_passes_filter args answer :
  minBytes args = 24 -> maxBytes args = 1000 ->
  passes_filter Sample.imports args (Sample.world answer) Sample.event.
Proof.
  intros Hmin Hmax. unfold passes_filter, size_and_type_ok. rewrite Hmin, Hmax.
  reflexivity.
Defined.

Lemma sample_keys_distinct : NoDup (record_keys Sample.imports).
Proof. apply (bool_decide_unpack _). vm_compute. exact I. Defined.

Lemma filter_accepts_iff_size_and_type_witness :
  regular_file (Sample.world (inr [])) Sample.event /\
  reached_duplicate_check
    (_method_name Sample.imports Sample.args Sample.oracle_ready
       (Sample.world (inr [])) Sample.event) = true.
Proof.
  split; [apply sample_regular_file|].
  apply (filter_accepts_iff_size_and_type Sample.imports Sample.args Sample.oracle_ready
           (Sample.world (inr [])) Sample.event (sample_regular_file _)).
  split; [simpl; lia|]. left. simpl. apply list_elem_of_here.
Defined.

Lemma duplicate_iff_some_hit_has_size_witness :
  snd (_method_name Sample.imports Sample.args Sample.oracle_ready
         (Sample.world (inr [Sample.hit_500])) Sample.event) = inr DuplicateSkipped
  /\ sends (_method_name Sample.imports Sample.args Sample.oracle_ready
              (Sample.world (inr [Sample2.hit_other_size])) Sample.event)
     = [message_of Sample.imports Sample.args
          (Sample.world (inr [Sample2.hit_other_size])) Sample.event]
  /\ snd (_method_name Sample.imports Sample.args Sample.oracle_ready
            (Sample.world (inr [Sample2.hit_float_size])) Sample.event)
     = inr DuplicateSkipped.
Proof.
  split; [|split].
  - apply (duplicate_iff_some_hit_has_size Sample.imports Sample.args Sample.oracle_ready
             (Sample.world (inr [Sample.hit_500])) Sample.event [Sample.hit_500]
             (sample_regular_file _) (sample_passes_filter Sample.args _ eq_refl eq_refl)
             eq_refl eq_refl).
    exists Sample.hit_500. split; [apply list_elem_of_here|reflexivity].
  - apply (duplicate_iff_some_hit_has_size Sample.imports Sample.args Sample.oracle_ready
             (Sample.world (inr [Sample2.hit_other_size])) Sample.event
             [Sample2.hit_other_size]
             (sample_regular_file _) (sample_passes_filter Sample.args _ eq_refl eq_refl)
             eq_refl eq_refl).
    intros hit v Hin Hv. apply list_elem_of_singleton in Hin. rewrite Hin in Hv.
    exists 777. split; [|discriminate].
    vm_compute in Hv. by injection Hv as <-.
  - apply (proj1 (proj2 (duplicate_iff_some_hit_has_size Sample.imports Sample.args
             Sample.oracle_ready
             (Sample.world (inr [Sample2.hit_float_size])) Sample.event
             [Sample2.hit_float_size]
             (sample_regular_file _) (sample_passes_filter Sample.args _ eq_refl eq_refl)
             eq_refl eq_refl))).
    exists Sample2.hit_float_size. split; [apply list_elem_of_here|].
    left. split; [lia|reflexivity].
Defined.

Lemma query_error_leaves_the_handler_witness :
  snd (_method_name Sample.imports Sample.args Sample.oracle_ready
         (Sample.world (inl (OtherException "TransportError"))) Sample.event)
  = inl (OtherException "TransportError").
Proof.
  apply (query_error_leaves_the_handler Sample.imports Sample.args Sample.oracle_ready
           (Sample.world (inl (OtherException "TransportError"))) Sample.event
           (OtherException "TransportError")
           (sample_regular_file _) (sample_passes_filter Sample.args _ eq_refl eq_refl)
           eq_refl eq_refl).
Defined.

(** C5, against the specification as written. The oracle is in use and the query of an
    accepted event raises an error: the handler ends with the error and sends
    nothing. *)
Lemma query_error_is_not_swallowed :
  ~ query_error_fails_open Sample.imports Sample.args Sample.oracle_ready
      (Sample.world (inl (OtherException "TransportError"))) Sample.event.
Proof.
  intros Hopen. destruct (Hopen (OtherException "TransportError") eq_refl) as (o & Ho & _).
  vm_compute in Ho. discriminate Ho.
Qed.

Lemma no_endpoint_sends_every_accepted_file_witness :
  opensearchUrl Sample.args_no_endpoint = None /\
  exists self,
    EventWatcher_init Sample.args_no_endpoint Sample.backend_down 0 Sample.start
    = Finished (self, Sample.start)
    /\ useOpenSearch self = false.
Proof.
  split; [reflexivity|].
  destruct (no_endpoint_sends_every_accepted_file Sample.imports Sample.args_no_endpoint
              Sample.backend_down 0 Sample.start eq_refl) as (self & Hinit & Hno & _).
  exists self. split; assumption.
Defined.

Lemma one_record_per_accepted_event_witness :
  sends (_method_name Sample.imports Sample.args Sample.oracle_ready
           (Sample.world (inr [])) Sample.event)
  = [json_dumps Sample.imports
       (record_of Sample.imports Sample.args (Sample.world (inr [])) Sample.event)].
Proof.
  apply (one_record_per_accepted_event Sample.imports Sample.args Sample.oracle_ready
           (Sample.world (inr [])) Sample.event sample_keys_distinct).
  - apply sample_regular_file.
  - apply sample_passes_filter; reflexivity.
  - right. exists []. split; [reflexivity|]. intros hit Hin. by apply elem_of_nil in Hin.
Defined.

Lemma loops_exit_within_one_sleep_of_shutdown_witness :
  shuttingDown Sample.backend_down_shutdown 5 = true /\
  exits_promptly 5 tl
    (connect_loop Sample.args_waiting Sample.url Sample.backend_down_shutdown)
    Sample.not_connected.
Proof.
  split; [reflexivity|].
  apply (loops_exit_within_one_sleep_of_shutdown Sample.args_waiting Sample.url
           Sample.backend_down_shutdown 5).
  - intros t t' Hle Ht. cbv [Sample.backend_down_shutdown shuttingDown] in *.
    apply Nat.leb_le. apply Nat.leb_le in Ht. lia.
  - reflexivity.
Defined.

Lemma connect_loop_retries_only_when_waiting_witness :
  connected Sample.not_connected = false /\
  exists s', connect_loop Sample.args_waiting Sample.url Sample.backend_down 2
               Sample.not_connected = OutOfFuel s'
    /\ trace (tl s') = [(1%nat, ConnectAttempt); (2%nat, Sleep 1000);
                        (4%nat, ConnectAttempt); (5%nat, Sleep 1000)].
Proof.
  split; [reflexivity|].
  destruct (connect_loop_retries_only_when_waiting Sample.args_waiting Sample.url
              Sample.backend_down Sample.not_connected eq_refl) as [Hwait _].
  destruct (Hwait eq_refl) as (_ & _ & Hretry).
  apply (Hretry 2%nat). intros t _. split; [reflexivity|discriminate].
Defined.


(** * Further properties of the code *)

(** ** The handler *)

(** X1. Whatever the event, the handler makes at most one query and at most
    one send, the query first, and they are the query and the message of the
    event; it queries only with the oracle in use, and it queries and sends
    only for a regular file that passes the filter. *)
Theorem handler_effects_in_order im args self w event :
  let r := _method_name im args self w event in
  let q := EQuery (duplicate_query args event) in
  let m := ESend (message_of im args w event) in
  (fst r = [] \/ fst r = [q] \/ fst r = [m] \/ fst r = [q; m])
  /\ (queries r <> [] ->
      useOpenSearch self = true /\ regular_file w event /\ passes_filter im args w event)
  /\ (sends r <> [] ->
      regular_file w event /\ passes_filter im args w event
      /\ ~ found_duplicate args self w event).
Proof.
  intros r q m. subst r q m.
  destruct (negb (dir event) && os_path_isfile w (pathname event)) eqn:Hfile.
  2:{ rewrite handler_not_a_file by done. simpl. split; [by left|]. split; done. }
  apply andb_true_iff in Hfile as [Hd Hf]. apply negb_true_iff in Hd.
  assert (regular_file w event) as Hreg by done.
  destruct (size_and_type_ok im args (os_path_getsize w (pathname event))
    (magic_from_file_mime w (pathname event)) (magic_from_file w (pathname event))) eqn:Hok.
  2:{ rewrite handler_rejected; [|done|unfold passes_filter; congruence].
      simpl. split; [by left|]. split; done. }
  assert (passes_filter im args w event) as Hpass by done.
  pose proof (publish_sends im args w event (os_path_getsize w (pathname event))
    (magic_from_file_mime w (pathname event)) (magic_from_file w (pathname event))) as [Hs Hq].
  assert (fst (publish im args w event (os_path_getsize w (pathname event))
    (magic_from_file_mime w (pathname event)) (magic_from_file w (pathname event)))
    = [ESend (message_of im args w event)]) as Htr.
  { unfold publish, topic_socket_send_string, try_except, bind, ret.
    destruct (send_string w _) as [[]|]; reflexivity. }
  destruct (useOpenSearch self) eqn:Huse.
  - destruct (Search_execute w (duplicate_query args event)) as [e|hits] eqn:Hsearch.
    + rewrite (handler_query_raises _ _ _ _ _ _ Hreg Hpass Huse Hsearch). simpl.
      split; [by right; left|]. split; done.
    + rewrite (handler_with_hits _ _ _ _ _ _ Hreg Hpass Huse Hsearch).
      destruct (scan_hits hits _ false) eqn:Hscan.
      * simpl. split; [by right; left|]. split; done.
      * destruct (publish _ _ _ _ _ _ _) as [tr res]. simpl in Htr. subst tr.
        split; [by right; right; right|]. split; [done|]. intros _.
        split; [done|]. split; [done|].
        intros (_ & hits' & Hsearch' & Hfound).
        assert (hits' = hits) as -> by congruence.
        assert (scan_hits hits (os_path_getsize w (pathname event)) false = true) as Hyes.
        { apply scan_hits_spec. by right. }
        congruence.
  - rewrite (handler_without_oracle _ _ _ _ _ Hreg Hpass Huse).
    split; [right; right; left; exact Htr|]. split.
    + by rewrite Hq.
    + intros _. split; [done|]. split; [done|]. intros [Hyes _]. congruence.
Qed.

(** X2. For an event that passes the filter and the duplicate check, the
    handler returns when the send returns and when it raises [zmq.Again];
    every other exception of the send leaves the handler. *)
Theorem send_error_is_caught_only_if_again im args self w event :
  regular_file w event -> passes_filter im args w event ->
  no_duplicate_found args self w event ->
  snd (_method_name im args self w event) =
  match send_string w (message_of im args w event) with
  | None => inr Sent
  | Some ZmqAgain => inr SendAbandoned
  | Some e => inl e
  end.
Proof.
  intros Hreg Hpass Hnodup.
  pose proof (publish_result im args w event (os_path_getsize w (pathname event))
    (magic_from_file_mime w (pathname event)) (magic_from_file w (pathname event))) as Hres.
  destruct (useOpenSearch self) eqn:Huse.
  - destruct Hnodup as [?|(hits & Hsearch & Hnone)]; [congruence|].
    rewrite (handler_with_hits _ _ _ _ _ _ Hreg Hpass Huse Hsearch).
    destruct (scan_hits _ _ _) eqn:Hscan.
    + apply scan_hits_spec in Hscan as [?|(hit & Hin & Hm)]; [done|].
      by destruct (Hnone hit Hin).
    + by destruct (publish _ _ _ _ _ _ _).
  - by rewrite (handler_without_oracle _ _ _ _ _ Hreg Hpass Huse).
Qed.

(** X3. With [minBytes] above [maxBytes] no size is in range: the handler
    neither queries nor sends, whatever the event. *)
Theorem empty_size_range_drops_every_event im args self w event :
  maxBytes args < minBytes args ->
  let r := _method_name im args self w event in
  fst r = [] /\ (snd r = inr NotAFile \/ snd r = inr Rejected).
Proof.
  intros Hrange r. subst r.
  destruct (negb (dir event) && os_path_isfile w (pathname event)) eqn:Hfile.
  - apply andb_true_iff in Hfile as [Hd Hf]. apply negb_true_iff in Hd.
    rewrite handler_rejected; [by split; [|right]|done|].
    intros Hpass. apply size_and_type_ok_spec in Hpass as [Hsize _]. lia.
  - rewrite handler_not_a_file by done. by split; [|left].
Qed.

(** X4. A hit without the field [filesize], or with a string, a list or
    [None] in it, never makes a duplicate: if all hits are such, the record is
    sent. *)
Theorem hits_without_integer_size_are_ignored im args self w event hits :
  regular_file w event -> passes_filter im args w event ->
  useOpenSearch self = true ->
  Search_execute w (duplicate_query args event) = inr hits ->
  (forall hit, hit ∈ hits ->
     match hit !! ARKIME_FILE_SIZE_FIELD with
     | None | Some PyNone | Some (PyStr _) | Some (PyList _) => True
     | Some (PyInt _) | Some (PyFloat _ _) | Some (PyBool _) => False
     end) ->
  sends (_method_name im args self w event) = [message_of im args w event]
  /\ snd (_method_name im args self w event) <> inr DuplicateSkipped.
Proof.
  intros Hreg Hpass Huse Hsearch Hall.
  assert (forall hit, hit ∈ hits ->
            ~ size_matches (os_path_getsize w (pathname event)) hit) as Hnone.
  { intros hit Hin (v & Hv & Heq). specialize (Hall hit Hin). rewrite Hv in Hall.
    by destruct v. }
  split; [by apply (duplicate_iff_hits_helper im args self w event hits)|].
  rewrite (handler_with_hits _ _ _ _ _ _ Hreg Hpass Huse Hsearch).
  destruct (scan_hits _ _ _) eqn:Hscan.
  - apply scan_hits_spec in Hscan as [?|(hit & Hin & Hm)]; [done|].
    by destruct (Hnone hit Hin).
  - pose proof (publish_result im args w event (os_path_getsize w (pathname event))
      (magic_from_file_mime w (pathname event)) (magic_from_file w (pathname event))) as Hres.
    destruct (publish _ _ _ _ _ _ _) as [tr res]. simpl in *. rewrite Hres.
    by destruct (send_string w _) as [[]|].
Qed.

(** ** The signal handlers *)

Lemma deliver_cons sig sigs g :
  Signals.deliver (sig :: sigs) g = Signals.deliver sigs (Signals.handler_of sig g).
Proof. reflexivity. Qed.

Lemma deliver_shuttingDown sigs g :
  Signals.shuttingDown (Signals.deliver sigs g)
  = Signals.shuttingDown g || existsb Signals.is_shutdown_signal sigs.
Proof.
  revert g. induction sigs as [|sig sigs IH]; intros g.
  - simpl. by rewrite orb_false_r.
  - rewrite deliver_cons, IH. destruct sig; simpl;
      rewrite ?orb_true_r; try reflexivity; by destruct (Signals.shuttingDown g).
Qed.

Lemma arrived_before_mono arrivals t t' :
  (t <= t')%nat ->
  exists more, Signals.arrived_before arrivals t' = Signals.arrived_before arrivals t ++ more.
Proof.
  induction 1 as [|t' _ [more IH]].
  - exists []. by rewrite app_nil_r.
  - exists (more ++ arrivals t'). simpl. by rewrite IH, app_assoc.
Qed.

(** X5. Whatever signals arrive, [shuttingDown] is true afterwards exactly
    when it was true before or one of them was SIGINT or SIGTERM; no handler
    clears it, so the flag as the main thread reads it over time is never
    cleared. *)
Theorem shutdown_flag_is_set_and_never_cleared sigs g arrivals :
  Signals.shuttingDown (Signals.deliver sigs g)
  = Signals.shuttingDown g || existsb Signals.is_shutdown_signal sigs
  /\ never_cleared (Signals.flag_at arrivals g).
Proof.
  split; [apply deliver_shuttingDown|].
  intros t t' Hle. unfold Signals.flag_at. rewrite !deliver_shuttingDown.
  destruct (arrived_before_mono arrivals t t' Hle) as [more ->].
  rewrite existsb_app. intros Ht.
  apply orb_true_iff in Ht as [Ht | Ht]; rewrite Ht; [done|]. by rewrite orb_true_r.
Qed.

(** X6. Whatever signals arrive, [debug] is flipped once for every SIGUSR2,
    [verboseDebug] is left as it was, [pdbFlagged] is set by SIGUSR1 and by
    nothing else, and [debugToggled] is true once a SIGUSR2 arrived. So the
    first SIGUSR2 after a start with the extra verbose option turns [debug]
    off while [verboseDebug] stays on. *)
Theorem debug_is_flipped_by_every_usr2 sigs g :
  Signals.debug (Signals.deliver sigs g)
  = xorb (Signals.debug g) (Nat.odd (length (List.filter Signals.is_usr2 sigs)))
  /\ Signals.verboseDebug (Signals.deliver sigs g) = Signals.verboseDebug g
  /\ Signals.pdbFlagged (Signals.deliver sigs g)
     = Signals.pdbFlagged g || existsb Signals.is_usr1 sigs
  /\ (existsb Signals.is_usr2 sigs = true ->
      Signals.debugToggled (Signals.deliver sigs g) = Some true)
  /\ (forall d,
        let g' := Signals.deliver [Signals.SIGUSR2] (Signals.set_debug_flags d true g) in
        Signals.debug g' = false /\ Signals.verboseDebug g' = true).
Proof.
  split; [|split; [|split; [|split]]].
  - revert g. induction sigs as [|sig sigs IH]; intros g.
    + simpl. by rewrite xorb_false_r.
    + rewrite deliver_cons, IH. destruct sig; simpl; try reflexivity.
      rewrite Nat.odd_succ, <- Nat.negb_odd.
      by destruct (Signals.debug g), (Nat.odd _).
  - revert g. induction sigs as [|sig sigs IH]; intros g; [done|].
    rewrite deliver_cons, IH. by destruct sig.
  - revert g. induction sigs as [|sig sigs IH]; intros g.
    + simpl. by rewrite orb_false_r.
    + rewrite deliver_cons, IH. destruct sig; simpl;
        rewrite ?orb_true_r; try reflexivity; by destruct (Signals.pdbFlagged g).
  - assert (forall sigs g, Signals.debugToggled g = Some true ->
              Signals.debugToggled (Signals.deliver sigs g) = Some true) as Hkeep.
    { clear. induction sigs as [|sig sigs IH]; intros g Hg; [done|].
      rewrite deliver_cons. apply IH. by destruct sig. }
    revert g. induction sigs as [|sig sigs IH]; intros g Hex; [done|].
    rewrite deliver_cons. destruct sig; simpl in Hex; try by apply IH.
    by apply Hkeep.
  - intros d g'. subst g'. simpl. by rewrite orb_true_r.
Qed.

(** ** The search endpoint *)

(** X7. After [main] has resolved the endpoint: with a local instance the
    URL is a non-empty string and there are no credentials; a non-empty URL
    from the command line is kept; the URL is [None] exactly when none was
    given, the instance is not local and the credentials file has no [url];
    an empty URL that finds no replacement stays the empty string, which is
    not [None]; and without a local instance the credentials are [None]
    exactly when the file has no [user]. *)
Theorem endpoint_resolution url isLocal (curlrc : gmap string string) :
  let ep := resolve_endpoint url isLocal curlrc in
  (ep_isLocal ep = true -> py_truthy (ep_url ep) = true /\ ep_httpAuth ep = None)
  /\ (py_truthy url = true -> ep_url ep = url)
  /\ (ep_url ep = None <-> url = None /\ isLocal = false /\ curlrc !! "url" = None)
  /\ (url = Some "" -> isLocal = false -> curlrc !! "url" = None -> ep_url ep = Some "")
  /\ (ep_isLocal ep = false -> (ep_httpAuth ep = None <-> curlrc !! "user" = None)).
Proof.
  intros ep. subst ep. unfold resolve_endpoint. simpl.
  split; [|split; [|split; [|split]]].
  - intros ->. simpl. rewrite lookup_empty. split; [|done].
    by destruct (py_truthy url) eqn:Hu.
  - by intros ->.
  - destruct url as [s|]; simpl.
    + split; [|by intros [? _]].
      case_bool_decide as Hs; simpl; [|done].
      destruct (isLocal || _); simpl; [done|]. by destruct (curlrc !! "url").
    + rewrite ?orb_false_r.
      destruct isLocal; simpl; [by split; [|intros (_ & ? & _)]|].
      destruct (curlrc !! "url"); [by split; [|intros (_ & _ & ?)]|done].
  - intros -> -> Hu. simpl. by rewrite Hu.
  - intros ->. simpl. by destruct (curlrc !! "user").
Qed.

(** ** The handlers of the class *)

Lemma install_handlers_lookup im args methods (cls : gmap string Method) name :
  install_handlers im args methods cls !! name =
  if bool_decide (Exists (fun m => name = "process_" +:+ m) methods)
  then Some (_method_name im args) else cls !! name.
Proof.
  unfold install_handlers. revert cls.
  induction methods as [|m methods IH]; intros cls; cbn [foldl].
  - rewrite bool_decide_eq_false_2; [done|]. by intros H%Exists_nil.
  - rewrite IH. unfold event_process_generator.
    destruct (decide (Exists (fun m0 => name = "process_" +:+ m0) methods)) as [Hex|Hno].
    + rewrite !bool_decide_eq_true_2; [done| |done]. by right.
    + rewrite (bool_decide_eq_false_2 _ Hno).
      destruct (decide (name = "process_" +:+ m)) as [->|Hne].
      * rewrite lookup_insert_eq, bool_decide_eq_true_2; [done|]. by left.
      * rewrite lookup_insert_ne by done. rewrite bool_decide_eq_false_2; [done|].
        intros [?|?]%Exists_cons; done.
Qed.

(** X15. [event_process_generator] gives the class one attribute
    ["process_" + method] for every listed method, each bound to the one
    handler, and leaves every other attribute as it was; for the two methods
    of [_methods] the class gets [process_IN_CLOSE_WRITE] and
    [process_IN_MOVED_TO] and nothing else. *)
Theorem handlers_installed_for_listed_events im args methods (cls : gmap string Method) :
  (forall m, m ∈ methods ->
     install_handlers im args methods cls !! ("process_" +:+ m) = Some (_method_name im args))
  /\ (forall name, (forall m, m ∈ methods -> name <> "process_" +:+ m) ->
        install_handlers im args methods cls !! name = cls !! name)
  /\ dom (install_handlers im args _methods ∅)
     = ({["process_IN_CLOSE_WRITE"; "process_IN_MOVED_TO"]} : gset string).
Proof.
  split; [|split].
  - intros m Hin. rewrite install_handlers_lookup, bool_decide_eq_true_2; [done|].
    apply Exists_exists. eauto.
  - intros name Hnot. rewrite install_handlers_lookup, bool_decide_eq_false_2; [done|].
    intros (m & Hin & ->)%Exists_exists. by apply (Hnot m).
  - unfold install_handlers, _methods, event_process_generator. simpl.
    rewrite !dom_insert_L, dom_empty_L.
    apply set_eq. intros x. rewrite !elem_of_union, !elem_of_singleton.
    rewrite elem_of_empty. tauto.
Qed.

(** ** Loops that run to their end *)

Lemma while_more_fuel {S : Type} (cond : S -> bool) (body : S -> Step S) a b s :
  exited (while cond body a s) = true ->
  while cond body (a + b) s = while cond body a s.
Proof.
  revert s. induction a as [|a IH]; intros s; simpl.
  - destruct (cond s) eqn:Hc; [done|]. intros _. destruct b; simpl; by rewrite Hc.
  - destruct (cond s) eqn:Hc; [|done].
    destruct (body s) as [s1|s1|e s1]; [apply IH|done|done].
Qed.

Lemma while_step {S : Type} (cond : S -> bool) (body : S -> Step S) fuel s s' :
  cond s = true -> body s = Continue s' ->
  while cond body (Datatypes.S fuel) s = while cond body fuel s'.
Proof. intros Hc Hb. simpl. by rewrite Hc, Hb. Qed.

Lemma count_sleeps_app (a b : list (nat * Action)) :
  count_sleeps (a ++ b) = (count_sleeps a + count_sleeps b)%nat.
Proof. unfold count_sleeps. by rewrite List.filter_app, length_app. Qed.

Lemma count_breakpoints_app (a b : list (nat * Action)) :
  count_breakpoints (a ++ b) = (count_breakpoints a + count_breakpoints b)%nat.
Proof. unfold count_breakpoints. by rewrite List.filter_app, length_app. Qed.

Lemma count_sleeps_warmup_trace c n : count_sleeps (warmup_trace c n) = n.
Proof.
  revert c. induction n as [|n IH]; intros c; [done|].
  simpl. change (count_sleeps ((S c, Sleep 1000) :: warmup_trace (S (S c)) n))
    with (S (count_sleeps (warmup_trace (S (S c)) n))). by rewrite IH.
Qed.

Lemma resolve_spins args fs name :
  recursiveDir args = Some name ->
  forall j i,
    (forall k, (i <= k < i + j)%nat ->
       glob_glob fs k (baseDir args +:+ "/**/" +:+ name) = []) ->
    while resolve_cond (resolve_body args fs) j (i, [])
    = OutOfFuel ((i + j)%nat, []).
Proof.
  intros Hrec. induction j as [|j IH]; intros i Hempty; simpl.
  - by rewrite Nat.add_0_r.
  - unfold resolve_cond at 1, resolve_body at 1. simpl. rewrite Hrec.
    rewrite (Hempty i) by lia. rewrite IH; [by rewrite Nat.add_succ_r|].
    intros k Hk. apply Hempty. lia.
Qed.

(** X8. The directories to watch: without a recursive name they are the
    base directory, found in one pass; the loop never ends with an empty
    list; with a recursive name the loop asks [glob.glob] again for as long
    as the answer is empty, however long that is, and ends with the first
    answer that is not. *)
Theorem watch_dirs_resolution args fs :
  (recursiveDir args = None ->
     forall fuel, resolve_watchDirs args fs (S fuel) = Finished (O, [baseDir args]))
  /\ (forall fuel n dirs,
        resolve_watchDirs args fs fuel = Finished (n, dirs) -> dirs <> [])
  /\ (forall name n,
        recursiveDir args = Some name ->
        (forall k, (k < n)%nat ->
           glob_glob fs k (baseDir args +:+ "/**/" +:+ name) = []) ->
        resolve_watchDirs args fs n = OutOfFuel (n, [])
        /\ (glob_glob fs n (baseDir args +:+ "/**/" +:+ name) <> [] ->
            forall m, resolve_watchDirs args fs (S n + m)
                      = Finished (S n, glob_glob fs n (baseDir args +:+ "/**/" +:+ name)))).
Proof.
  unfold resolve_watchDirs. split; [|split].
  - intros Hnone fuel. simpl. unfold resolve_cond at 1, resolve_body at 1. simpl.
    rewrite Hnone. by destruct fuel.
  - intros fuel n dirs Hfin. apply while_finished in Hfin as [Hc|(s0 & _ & Hb)].
    + unfold resolve_cond in Hc. simpl in Hc. apply bool_decide_eq_false in Hc.
      by intros ->.
    + unfold resolve_body in Hb. by destruct (recursiveDir args).
  - intros name n Hrec Hempty.
    assert (while resolve_cond (resolve_body args fs) n (O, []) = OutOfFuel (n, [])) as Hspin.
    { apply (resolve_spins args fs name Hrec n O). intros k Hk. apply Hempty. lia. }
    split; [done|]. intros Hfound m.
    assert (while resolve_cond (resolve_body args fs) 1 (n, [])
            = Finished (S n, glob_glob fs n (baseDir args +:+ "/**/" +:+ name))) as Hlast.
    { simpl. unfold resolve_cond, resolve_body. simpl. rewrite Hrec.
      rewrite bool_decide_eq_false_2; [done|].
      destruct (glob_glob fs n _); [done|]. simpl. lia. }
    replace (S n + m)%nat with (n + (1 + m))%nat by lia.
    rewrite (while_resume _ _ _ _ _ _ Hspin).
    rewrite while_more_fuel; [done|]. by rewrite Hlast.
Qed.

Lemma warmup_runs args env :
  (forall t, shuttingDown env t = false) ->
  forall n s, Z.to_nat (startSleepSec args - sleepCount s) = n ->
  forall m, exists s',
    warmup_loop args env (n + m) s = Finished s'
    /\ trace (sl_tl s') = trace (sl_tl s) ++ warmup_trace (clock (sl_tl s)) n
    /\ clock (sl_tl s') = (clock (sl_tl s) + 2 * n)%nat
    /\ sleepCount s' = sleepCount s + Z.of_nat n.
Proof.
  intros Hflag. unfold warmup_loop. induction n as [|n IH]; intros s Hn m.
  - exists s.
    assert (warmup_cond args env s = false) as Hc.
    { unfold warmup_cond. rewrite Hflag. simpl. apply Z.ltb_ge. lia. }
    split; [destruct m; simpl; by rewrite Hc|].
    split; [by rewrite app_nil_r|]. split; lia.
  - assert (warmup_cond args env s = true) as Hc.
    { unfold warmup_cond. rewrite Hflag. simpl. apply Z.ltb_lt. lia. }
    destruct (IH {| sl_tl := act (Sleep 1000) (tick (sl_tl s));
                    sleepCount := sleepCount s + 1 |}) with (m := m)
      as (s' & Hrun & Htr & Hclk & Hcount); [simpl; lia|].
    exists s'. simpl. rewrite Hc. unfold warmup_body at 1.
    split; [exact Hrun|]. simpl in *.
    split; [by rewrite Htr, <- app_assoc|]. split; lia.
Qed.

(** X13. Without a shutdown request the warm-up loop of [main] ends after
    exactly [startSleepSec] sleeps of one second, and after none when
    [startSleepSec] is zero or negative. *)
Theorem warmup_sleeps_start_sleep_seconds args env t :
  (forall τ, shuttingDown env τ = false) ->
  forall m, exists s',
    warmup_loop args env (Z.to_nat (startSleepSec args) + m) {| sl_tl := t; sleepCount := 0 |}
    = Finished s'
    /\ trace (sl_tl s') = trace t ++ warmup_trace (clock t) (Z.to_nat (startSleepSec args))
    /\ count_sleeps (warmup_trace (clock t) (Z.to_nat (startSleepSec args)))
       = Z.to_nat (startSleepSec args)
    /\ sleepCount s' = Z.max 0 (startSleepSec args).
Proof.
  intros Hflag m.
  destruct (warmup_runs args env Hflag (Z.to_nat (startSleepSec args))
              {| sl_tl := t; sleepCount := 0 |}) with (m := m)
    as (s' & Hrun & Htr & _ & Hcount); [simpl; lia|].
  exists s'. split; [done|]. split; [done|].
  split; [apply count_sleeps_warmup_trace|]. simpl in Hcount. lia.
Qed.

(** ** The constructor, from the first attempt to the last health request *)

Lemma connect_body_completed args url env s :
  opensearchWaitForHealth args = true ->
  connect_try env (S (clock (tl s))) = Completed ->
  connect_body args url env s
  = Break {| tl := act (Sleep 1000) (act ConnectAttempt (tick (tl s)));
             client := Some url; connected := true; healthy := healthy s |}.
Proof.
  intros Hw Hdone. unfold connect_body. rewrite client_assigned, Hw. simpl.
  by rewrite Hdone.
Qed.

Lemma health_body_connection_error env s e :
  healthy s = false ->
  health_try env (S (clock (tl s))) = Some e -> is_connection_error e = true ->
  health_body env s
  = Continue {| tl := act (Sleep 1000) (act HealthPoll (tick (tl s)));
                client := client s; connected := connected s; healthy := false |}.
Proof.
  intros Hh Htry Hconn. unfold health_body. simpl. by rewrite Htry, Hconn, Hh.
Qed.

Lemma health_body_other_error env s e :
  health_try env (S (clock (tl s))) = Some e -> is_connection_error e = false ->
  health_body env s = Raise e (with_tl (fun _ => act HealthPoll (tick (tl s))) s).
Proof. intros Htry Hconn. unfold health_body. simpl. by rewrite Htry, Hconn. Qed.

Lemma health_body_answered env s :
  health_try env (S (clock (tl s))) = None ->
  health_body env s
  = Continue {| tl := act HealthPoll (tick (tl s));
                client := client s; connected := connected s; healthy := true |}.
Proof. intros Htry. unfold health_body. simpl. by rewrite Htry. Qed.

Lemma health_loop_retries args env :
  opensearchWaitForHealth args = true ->
  forall k s, connected s = true -> healthy s = false ->
  (forall t, (clock (tl s) <= t <= clock (tl s) + 3 * k)%nat ->
     shuttingDown env t = false /\
     exists e, health_try env t = Some e /\ is_connection_error e = true) ->
  exists s', health_loop args env k s = OutOfFuel s'
    /\ connected s' = true /\ healthy s' = false /\ client s' = client s
    /\ clock (tl s') = (clock (tl s) + 3 * k)%nat
    /\ trace (tl s') = trace (tl s) ++ health_retry_trace (clock (tl s)) k.
Proof.
  intros Hw. unfold health_loop. induction k as [|k IH]; intros s Hc Hh Hall.
  - exists s. simpl. unfold health_cond. rewrite Hc, Hw, Hh.
    destruct (Hall (clock (tl s))) as [-> _]; [lia|]. simpl.
    repeat split; [lia|by rewrite app_nil_r].
  - destruct (Hall (clock (tl s))) as [Hflag _]; [lia|].
    destruct (Hall (S (clock (tl s)))) as [_ (e & Htry & Hconn)]; [lia|].
    assert (health_cond args env s = true) as Hcond.
    { unfold health_cond. by rewrite Hc, Hw, Hh, Hflag. }
    rewrite (while_step _ _ _ _ _ Hcond (health_body_connection_error env s e Hh Htry Hconn)).
    destruct (IH {| tl := act (Sleep 1000) (act HealthPoll (tick (tl s)));
                    client := client s; connected := connected s; healthy := false |})
      as (s' & Hrun & Hc' & Hh' & Hcl' & Hclk' & Htr'); [done|done| |].
    { intros t Ht. apply Hall. simpl in Ht. lia. }
    exists s'. split; [exact Hrun|]. simpl in *.
    split; [done|]. split; [done|]. split; [done|]. split; [lia|].
    by rewrite Htr', <- !app_assoc.
Qed.

(** X10. In the health loop only the four connection errors are caught: any
    other exception of the health request leaves the loop and the
    constructor, though the connection itself had succeeded. *)
Theorem health_error_leaves_the_constructor args url env fuel t s1 e :
  opensearchUrl args = Some url ->
  connect_loop args url env (S fuel)
    {| tl := t; client := None; connected := false; healthy := false |} = Finished s1 ->
  health_cond args env s1 = true ->
  health_try env (S (clock (tl s1))) = Some e ->
  is_connection_error e = false ->
  EventWatcher_init args env (S fuel) t
  = Raised e ({| useOpenSearch := false; openSearchClient := client s1 |},
              act HealthPoll (tick (tl s1))).
Proof.
  intros Hurl Hconn Hcond Htry Hother. unfold EventWatcher_init. rewrite Hurl, Hconn.
  unfold health_loop. simpl. rewrite Hcond.
  by rewrite (health_body_other_error env s1 e Htry Hother).
Qed.

Lemma connect_body_connected_invariant args url env s :
  connected s = false ->
  let s' := step_state (connect_body args url env s) in
  connected s' = true ->
  client s' = Some url /\ exists t, connect_try env t = Completed.
Proof.
  intros Hc. unfold connect_body. rewrite client_assigned, Hc.
  destruct (connect_try env (clock (tick (tl s)))) eqn:Htry,
    (opensearchWaitForHealth args); simpl; try done; eauto.
Qed.

Lemma health_body_keeps_connection env s :
  let s' := step_state (health_body env s) in
  connected s' = connected s /\ client s' = client s
  /\ (healthy s' = true -> healthy s = true \/ exists t, health_try env t = None).
Proof.
  unfold health_body.
  destruct (health_try env (clock (tick (tl s)))) as [e|] eqn:Htry.
  - destruct (is_connection_error e); simpl; auto.
  - simpl. eauto.
Qed.

(** X11. Whenever the constructor returns with the oracle in use, the wait
    for health was requested, an endpoint is configured and its client is
    set, some connection attempt ran to its end and some health request was
    answered. *)
Theorem oracle_in_use_only_after_connection_and_health args env fuel t self t' :
  EventWatcher_init args env fuel t = Finished (self, t') ->
  useOpenSearch self = true ->
  opensearchWaitForHealth args = true
  /\ (exists url, opensearchUrl args = Some url /\ openSearchClient self = Some url)
  /\ (exists τ, connect_try env τ = Completed)
  /\ (exists τ, health_try env τ = None).
Proof.
  intros Hinit Huse.
  assert (opensearchWaitForHealth args = true) as Hw.
  { destruct (opensearchWaitForHealth args) eqn:Hw; [done|].
    rewrite (init_without_wait_no_oracle args env fuel t self t' Hw Hinit) in Huse. done. }
  split; [done|]. revert Hinit. unfold EventWatcher_init.
  destruct (opensearchUrl args) as [url|]; [|intros [= <- _]; done].
  set (s0 := {| tl := t; client := None; connected := false; healthy := false |}).
  pose proof (connect_loop_keeps_healthy args url env fuel s0) as Hh.
  assert (let s := result_state (connect_loop args url env fuel s0) in
          connected s = true ->
          client s = Some url /\ exists τ, connect_try env τ = Completed) as Hconn.
  { unfold connect_loop.
    apply (while_invariant _ _ (fun s => connected s = true ->
             client s = Some url /\ exists τ, connect_try env τ = Completed)); [|done].
    intros s Hcond _. apply connect_body_connected_invariant.
    unfold connect_cond in Hcond. apply andb_true_iff in Hcond as [Hc _].
    by apply negb_true_iff in Hc. }
  destruct (connect_loop args url env fuel s0) as [s1|e s1|s1]; [|done|done].
  simpl in Hh, Hconn.
  assert (let s := result_state (health_loop args env fuel s1) in
          connected s = connected s1 /\ client s = client s1
          /\ (healthy s = true -> exists τ, health_try env τ = None)) as Hhealth.
  { unfold health_loop.
    apply (while_invariant _ _ (fun s => connected s = connected s1 /\ client s = client s1
             /\ (healthy s = true -> exists τ, health_try env τ = None))).
    - intros s _ (Hc & Hcl & Hhs).
      destruct (health_body_keeps_connection env s) as (Hc' & Hcl' & Hh').
      split; [congruence|]. split; [congruence|].
      intros Hyes. destruct (Hh' Hyes) as [?|?]; auto.
    - split; [done|]. split; [done|]. rewrite Hh. done. }
  destruct (health_loop args env fuel s1) as [s2|e s2|s2]; [|done|done].
  simpl in Hhealth. destruct Hhealth as (Hc2 & Hcl2 & Hh2).
  intros [= <- _]. simpl in *. apply andb_true_iff in Huse as [Hc Hhy].
  rewrite Hc2 in Hc. destruct (Hconn Hc) as [Hcl Hex].
  split; [exists url; split; [done|congruence]|]. split; [done|]. by apply Hh2.
Qed.

(** X12. With the wait for health requested and no shutdown request, the
    constructor outlasts an unreachable backend: after [n] failed attempts,
    a completed one, [k] health requests that end in connection errors and
    one that is answered, it returns with the oracle in use and the client
    set, having slept one second after every attempt and after every failed
    health request. *)
Theorem oracle_in_use_after_retries args url env t n k m :
  opensearchUrl args = Some url -> opensearchWaitForHealth args = true ->
  (forall τ, (clock t <= τ <= clock t + 3 * n + 3 + 3 * k)%nat ->
     shuttingDown env τ = false) ->
  (forall τ, (clock t <= τ <= clock t + 3 * n)%nat -> connect_try env τ <> Completed) ->
  connect_try env (clock t + 3 * n + 1)%nat = Completed ->
  (forall τ, (clock t + 3 * n + 3 <= τ <= clock t + 3 * n + 3 + 3 * k)%nat ->
     exists e, health_try env τ = Some e /\ is_connection_error e = true) ->
  health_try env (clock t + 3 * n + 3 + 3 * k + 1)%nat = None ->
  exists t',
    EventWatcher_init args env (S (n + k + m)) t
    = Finished ({| useOpenSearch := true; openSearchClient := Some url |}, t')
    /\ trace t' = trace t ++ retry_trace (clock t) n
         ++ [((clock t + 3 * n + 1)%nat, ConnectAttempt);
             ((clock t + 3 * n + 2)%nat, Sleep 1000)]
         ++ health_retry_trace (clock t + 3 * n + 3) k
         ++ [((clock t + 3 * n + 3 + 3 * k + 1)%nat, HealthPoll)].
Proof.
  intros Hurl Hw Hflag Hfail Hdone Hherr Hhok.
  set (s0 := {| tl := t; client := None; connected := false; healthy := false |}).
  (* the connection loop *)
  destruct (connect_loop_retries args url env Hw n s0 eq_refl)
    as (sn & Hrun & Hcn & Hclk & Htr).
  { intros τ Hτ. simpl in Hτ. split; [apply Hflag; lia|apply Hfail; lia]. }
  simpl in Hclk, Htr.
  assert (healthy sn = false) as Hhn.
  { pose proof (connect_loop_keeps_healthy args url env n s0) as H.
    by rewrite Hrun in H. }
  assert (connect_cond env sn = true) as Hcond.
  { unfold connect_cond. rewrite Hcn, Hclk, Hflag by lia. done. }
  set (s1 := {| tl := act (Sleep 1000) (act ConnectAttempt (tick (tl sn)));
                client := Some url; connected := true; healthy := healthy sn |}).
  assert (connect_loop args url env (S (n + k + m)) s0 = Finished s1) as Hconnect.
  { unfold connect_loop in *.
    replace (S (n + k + m)) with (n + (1 + (k + m)))%nat by lia.
    rewrite (while_resume _ _ _ _ _ _ Hrun). simpl. rewrite Hcond.
    rewrite connect_body_completed; [done|done|]. rewrite Hclk.
    rewrite <- Hdone. f_equal. lia. }
  (* the health loop *)
  assert (clock (tl s1) = (clock t + 3 * n + 3)%nat) as Hclk1 by (simpl; lia).
  destruct (health_loop_retries args env Hw k s1 eq_refl Hhn)
    as (sk & Hrunk & Hck & Hhk & Hclk' & Hclkk & Htrk).
  { intros τ Hτ. rewrite Hclk1 in Hτ. split; [apply Hflag; lia|apply Hherr; lia]. }
  rewrite Hclk1 in Hclkk.
  assert (health_cond args env sk = true) as Hcondk.
  { unfold health_cond. rewrite Hck, Hw, Hhk, Hclkk, Hflag by lia. done. }
  set (s2 := {| tl := act HealthPoll (tick (tl sk));
                client := client sk; connected := connected sk; healthy := true |}).
  assert (health_loop args env (S (n + k + m)) s1 = Finished s2) as Hhealth.
  { unfold health_loop in *.
    replace (S (n + k + m)) with (k + (1 + (n + m)))%nat by lia.
    rewrite (while_resume _ _ _ _ _ _ Hrunk).
    rewrite (while_step _ _ _ _ s2 Hcondk).
    - assert (health_cond args env s2 = false) as Hc2.
      { unfold health_cond. simpl. by rewrite andb_false_r. }
      destruct (n + m)%nat; simpl; by rewrite Hc2.
    - apply health_body_answered. rewrite Hclkk. rewrite <- Hhok. f_equal. lia. }
  exists (tl s2). split.
  - unfold EventWatcher_init. rewrite Hurl. fold s0. rewrite Hconnect, Hhealth.
    simpl. by rewrite Hck, Hclk'.
  - simpl. rewrite Htrk. simpl. rewrite Htr, Hclk, Hclkk.
    rewrite <- !app_assoc. simpl.
    repeat f_equal; lia.
Qed.

(** ** main as a whole *)

Lemma while_cond_false {S : Type} (cond : S -> bool) (body : S -> Step S) fuel s :
  cond s = false -> while cond body fuel s = Finished s.
Proof. intros Hc. destruct fuel; simpl; by rewrite Hc. Qed.

Lemma calls_made_main_calls cs s :
  calls_made (main_calls cs s) = calls_made s ++ cs.
Proof.
  unfold main_calls, calls_made. revert s. induction cs as [|c cs IH]; intros s; simpl.
  - by rewrite app_nil_r.
  - rewrite IH. simpl. rewrite map_app. simpl. by rewrite <- app_assoc.
Qed.

Lemma trace_main_calls cs s : trace (m_tl (main_calls cs s)) = trace (m_tl s).
Proof.
  unfold main_calls. revert s. induction cs as [|c cs IH]; intros s; simpl; [done|].
  by rewrite IH.
Qed.

Lemma clock_main_calls cs s : (clock (m_tl s) <= clock (m_tl (main_calls cs s)))%nat.
Proof.
  unfold main_calls. revert s. induction cs as [|c cs IH]; intros s; simpl; [done|].
  etrans; [|apply IH]. simpl. lia.
Qed.

Lemma touch_preexisting_shut_down args fs watchDirs :
  touch_preexisting args fs true watchDirs = [].
Proof. unfold touch_preexisting. by rewrite andb_false_r. Qed.

Lemma init_when_shut_down args env fuel t :
  shuttingDown env (clock t) = true ->
  exists self, EventWatcher_init args env fuel t = Finished (self, t)
               /\ useOpenSearch self = false.
Proof.
  intros Hflag. unfold EventWatcher_init.
  destruct (opensearchUrl args) as [url|]; [|eauto].
  set (s0 := {| tl := t; client := None; connected := false; healthy := false |}).
  assert (connect_loop args url env fuel s0 = Finished s0) as ->.
  { apply while_cond_false. unfold connect_cond. simpl. by rewrite Hflag. }
  assert (health_loop args env fuel s0 = Finished s0) as ->.
  { by apply while_cond_false. }
  eauto.
Qed.

(** ** The files touched at startup *)

(** X9. With absolute watch directories the paths given to [touch] are the
    regular files of the watch directories, directory by directory, when the
    base directory was there at startup, the files found are not to be
    ignored and no shutdown is requested; otherwise nothing is touched.
    Nothing that is not a regular file is touched. *)
Theorem touch_finds_the_regular_files args fs shutdown watchDirs :
  Forall (fun d => posixpath.isabs d = true) watchDirs ->
  touch_preexisting args fs shutdown watchDirs
  = (if preexistingDir args fs && negb (ignoreExisting args) && negb shutdown
     then flat_map (regular_files fs) watchDirs else [])
  /\ (forall p, In p (touch_preexisting args fs shutdown watchDirs) -> is_file fs p = true).
Proof.
  intros Habs.
  assert (touch_preexisting args fs shutdown watchDirs
          = if preexistingDir args fs && negb (ignoreExisting args) && negb shutdown
            then flat_map (regular_files fs) watchDirs else []) as Heq.
  { destruct (preexistingDir args fs) eqn:Hpre, (ignoreExisting args) eqn:Hign, shutdown;
      try (unfold touch_preexisting; rewrite Hpre, Hign; reflexivity).
    simpl. by apply touch_preexisting_absolute. }
  split; [done|]. rewrite Heq. intros p.
  destruct (_ && _); [|done]. intros Hin.
  apply in_flat_map in Hin as (d & _ & Hin). unfold regular_files in Hin.
  apply in_map_iff in Hin as (x & <- & Hx). by apply filter_In in Hx as [_ Hx].
Qed.

(** ** The further properties at sample inputs *)

Lemma send_error_is_caught_only_if_again_witness :
  snd (_method_name Sample.imports Sample.args Sample2.oracle_off (Sample.world (inr [])) Sample.event)
  = inr Sent.
Proof.
  apply (send_error_is_caught_only_if_again Sample.imports Sample.args Sample2.oracle_off
           (Sample.world (inr [])) Sample.event
           (sample_regular_file _) (sample_passes_filter Sample.args _ eq_refl eq_refl)).
  left. reflexivity.
Defined.

Lemma empty_size_range_drops_every_event_witness :
  fst (_method_name Sample.imports Sample2.args_empty_range Sample2.oracle_off
         (Sample.world (inr [])) Sample.event) = [].
Proof.
  apply (empty_size_range_drops_every_event Sample.imports Sample2.args_empty_range
           Sample2.oracle_off (Sample.world (inr [])) Sample.event).
  reflexivity.
Defined.

Lemma hits_without_integer_size_are_ignored_witness :
  sends (_method_name Sample.imports Sample.args Sample.oracle_ready
           (Sample.world (inr [Sample2.hit_without_size])) Sample.event)
  = [message_of Sample.imports Sample.args
       (Sample.world (inr [Sample2.hit_without_size])) Sample.event].
Proof.
  apply (hits_without_integer_size_are_ignored Sample.imports Sample.args Sample.oracle_ready
           (Sample.world (inr [Sample2.hit_without_size])) Sample.event
           [Sample2.hit_without_size]
           (sample_regular_file _) (sample_passes_filter Sample.args _ eq_refl eq_refl)
           eq_refl eq_refl).
  intros hit Hin. apply list_elem_of_singleton in Hin. rewrite Hin. exact I.
Defined.

Lemma touch_finds_the_regular_files_witness :
  touch_preexisting Sample.args Sample2.fs_absolute false ["/data/pcap"]
  = ["/data/pcap/a.pcap"].
Proof.
  destruct (touch_finds_the_regular_files Sample.args Sample2.fs_absolute false
              ["/data/pcap"]) as [Heq _].
  - repeat constructor.
  - rewrite Heq. reflexivity.
Defined.

Lemma health_error_leaves_the_constructor_witness :
  exists self t',
    EventWatcher_init Sample.args_waiting Sample2.backend_health_broken 1 Sample.start
    = Raised (OtherException "AuthorizationException") (self, t').
Proof.
  eexists _, _.
  apply (health_error_leaves_the_constructor Sample.args_waiting Sample.url
           Sample2.backend_health_broken 0 Sample.start
           {| tl := act (Sleep 1000) (act ConnectAttempt (tick Sample.start));
              client := Some Sample.url; connected := true; healthy := false |}
           (OtherException "AuthorizationException"));
    reflexivity.
Defined.

Lemma oracle_in_use_only_after_connection_and_health_witness :
  opensearchWaitForHealth Sample.args_waiting = true
  /\ (exists url, opensearchUrl Sample.args_waiting = Some url
                  /\ openSearchClient Sample.oracle_ready = Some url)
  /\ (exists τ, connect_try Sample.backend_up τ = Completed)
  /\ (exists τ, health_try Sample.backend_up τ = None).
Proof.
  eapply (oracle_in_use_only_after_connection_and_health Sample.args_waiting
            Sample.backend_up 3 Sample.start Sample.oracle_ready);
    reflexivity.
Defined.

Lemma oracle_in_use_after_retries_witness :
  exists t',
    EventWatcher_init Sample.args_waiting Sample2.backend_slow 3 Sample.start
    = Finished (Sample.oracle_ready, t')
    /\ trace t' = [(1%nat, ConnectAttempt); (2%nat, Sleep 1000);
                   (4%nat, ConnectAttempt); (5%nat, Sleep 1000);
                   (7%nat, HealthPoll); (8%nat, Sleep 1000);
                   (10%nat, HealthPoll)].
Proof.
  apply (oracle_in_use_after_retries Sample.args_waiting Sample.url Sample2.backend_slow
           Sample.start 1 1 0 eq_refl eq_refl).
  - intros τ _. reflexivity.
  - intros τ Hτ. cbv [Sample2.backend_slow connect_try].
    destruct (τ <? 4)%nat eqn:Hlt; [discriminate|].
    apply Nat.ltb_ge in Hlt. simpl in Hτ. lia.
  - reflexivity.
  - intros τ Hτ. exists ConnectionTimeout. split; [|reflexivity].
    cbv [Sample2.backend_slow health_try].
    destruct (τ <? 10)%nat eqn:Hlt; [reflexivity|].
    apply Nat.ltb_ge in Hlt. simpl in Hτ. lia.
  - reflexivity.
Defined.

Lemma warmup_sleeps_start_sleep_seconds_witness :
  exists s',
    warmup_loop Sample.args Sample.backend_up 3 {| sl_tl := Sample.start; sleepCount := 0 |}
    = Finished s'
    /\ trace (sl_tl s') = [(1%nat, Sleep 1000); (3%nat, Sleep 1000); (5%nat, Sleep 1000)]
    /\ count_sleeps (warmup_trace 0 3) = 3%nat
    /\ sleepCount s' = 3.
Proof.
  apply (warmup_sleeps_start_sleep_seconds Sample.args Sample.backend_up Sample.start
           (fun _ => eq_refl) 0%nat).
Defined.

Lemma sample_flag_never_cleared : never_cleared (shuttingDown Sample.backend_down_shutdown).
Proof.
  intros t t' Hle Ht. cbv [Sample.backend_down_shutdown shuttingDown] in *.
  apply Nat.leb_le. apply Nat.leb_le in Ht. lia.
Defined.

(** ** The polling loop and SIGUSR1 *)

Lemma usr1_arrivals_bound env c n : (usr1_arrivals env c n <= n)%nat.
Proof.
  revert c. induction n as [|n IH]; intros c; simpl; [done|].
  specialize (IH (S c)). destruct (sigusr1 env c); lia.
Qed.

(** X14. Without a shutdown request the polling loop of [main] never ends:
    after any number of passes it is still running, having slept 0.2
    seconds once in every pass and done nothing else but call
    [breakpoint()]. It calls [breakpoint()] at most once for the flag it
    finds set and once more for every SIGUSR1 delivered since; with the flag
    set and no further SIGUSR1 it calls it exactly once, in the first
    pass. *)
Theorem polling_loop_runs_until_shutdown env :
  (forall τ, shuttingDown env τ = false) ->
  forall fuel s, exists s' new,
    polling_loop env fuel s = OutOfFuel s'
    /\ trace (p_tl s') = trace (p_tl s) ++ new
    /\ count_sleeps new = fuel
    /\ Forall (fun ta => ta.2 = Sleep 200 \/ ta.2 = Breakpoint) new
    /\ clock (p_tl s') = (clock (p_tl s) + 2 * fuel + count_breakpoints new)%nat
    /\ (count_breakpoints new
        <= (if pdbFlagged s then 1 else 0)
           + usr1_arrivals env (clock (p_tl s)) (clock (p_tl s') - clock (p_tl s)))%nat
    /\ ((forall τ, sigusr1 env τ = false) ->
        count_breakpoints new = if pdbFlagged s && negb (fuel =? 0)%nat then 1%nat else O).
Proof.
  intros Hflag. unfold polling_loop. induction fuel as [|fuel IH]; intros s.
  - exists s, []. simpl. unfold polling_cond. rewrite Hflag. simpl.
    rewrite app_nil_r, andb_false_r. repeat split; try done.
    + unfold count_breakpoints. simpl. lia.
    + unfold count_breakpoints. simpl. lia.
  - assert (polling_cond env s = true) as Hc by (unfold polling_cond; by rewrite Hflag).
    destruct (pdbFlagged s || sigusr1 env (clock (p_tl s))) eqn:Hpdb.
    + set (s1 := {| p_tl := act (Sleep 200) (act Breakpoint (tick (p_tl s)));
                    pdbFlagged := sigusr1 env (clock (tick (p_tl s)))
                                  || sigusr1 env (clock (act Breakpoint (tick (p_tl s)))) |}).
      assert (polling_body env s = Continue s1) as Hb'.
      { unfold polling_body. by rewrite Hpdb. }
      destruct (IH s1) as (s' & new & Hrun & Htr & Hs & Hall & Hclk & Hbound & Hquiet).
      exists s', ([(S (clock (p_tl s)), Breakpoint); (S (S (clock (p_tl s))), Sleep 200)] ++ new).
      rewrite (while_step _ _ _ _ _ Hc Hb').
      split; [exact Hrun|]. simpl in Htr, Hclk, Hbound, Hquiet.
      split; [by rewrite Htr, <- !app_assoc|].
      rewrite count_sleeps_app, count_breakpoints_app, Hs.
      change (count_breakpoints [(S (clock (p_tl s)), Breakpoint);
                                 (S (S (clock (p_tl s))), Sleep 200)]) with 1%nat.
      split; [done|]. split.
      { apply Forall_app. split; [|done].
        repeat (constructor; [simpl; auto|]); constructor. }
      split; [lia|]. split.
      * replace (clock (p_tl s') - clock (p_tl s))%nat
          with (3 + (clock (p_tl s') - S (S (S (clock (p_tl s))))))%nat by lia.
        simpl usr1_arrivals.
        destruct (pdbFlagged s), (sigusr1 env (clock (p_tl s))),
          (sigusr1 env (S (clock (p_tl s)))), (sigusr1 env (S (S (clock (p_tl s)))));
          simpl in *; try done; lia.
      * intros Hnone. rewrite (Hquiet Hnone). rewrite !Hnone in *. simpl.
        rewrite orb_false_r in Hpdb. by rewrite Hpdb.
    + set (s1 := {| p_tl := act (Sleep 200) (tick (p_tl s));
                    pdbFlagged := sigusr1 env (clock (tick (p_tl s))) |}).
      assert (polling_body env s = Continue s1) as Hb'.
      { unfold polling_body. by rewrite Hpdb. }
      destruct (IH s1) as (s' & new & Hrun & Htr & Hs & Hall & Hclk & Hbound & Hquiet).
      exists s', ([(S (clock (p_tl s)), Sleep 200)] ++ new).
      rewrite (while_step _ _ _ _ _ Hc Hb').
      split; [exact Hrun|]. simpl in Htr, Hclk, Hbound, Hquiet.
      split; [by rewrite Htr, <- !app_assoc|].
      rewrite count_sleeps_app, count_breakpoints_app, Hs.
      change (count_breakpoints [(S (clock (p_tl s)), Sleep 200)]) with O.
      split; [done|]. split.
      { apply Forall_app. split; [|done].
        repeat (constructor; [simpl; auto|]); constructor. }
      apply orb_false_iff in Hpdb as [Hf Hsig].
      split; [lia|]. split.
      * replace (clock (p_tl s') - clock (p_tl s))%nat
          with (2 + (clock (p_tl s') - S (S (clock (p_tl s)))))%nat by lia.
        simpl usr1_arrivals. rewrite Hf, Hsig.
        destruct (sigusr1 env (S (clock (p_tl s)))); simpl in *; lia.
      * intros Hnone. rewrite (Hquiet Hnone). rewrite Hnone, Hf. done.
Qed.

Lemma polling_loop_runs_until_shutdown_witness :
  exists s' new,
    polling_loop Sample2.one_usr1 4 {| p_tl := Sample.start; pdbFlagged := false |}
    = OutOfFuel s'
    /\ trace (p_tl s') = new
    /\ new = [(1%nat, Sleep 200); (3%nat, Sleep 200); (5%nat, Breakpoint);
              (6%nat, Sleep 200); (8%nat, Sleep 200)]
    /\ (count_breakpoints new
        <= 0 + usr1_arrivals Sample2.one_usr1 0 (clock (p_tl s') - 0))%nat.
Proof.
  destruct (polling_loop_runs_until_shutdown Sample2.one_usr1 (fun _ => eq_refl) 4%nat
              {| p_tl := Sample.start; pdbFlagged := false |})
    as (s' & new & Hrun & Htr & _ & _ & _ & Hbound & _).
  exists s', new. split; [exact Hrun|].
  vm_compute in Hrun. injection Hrun as <-. simpl in Htr.
  split; [exact Htr|]. split; [by rewrite <- Htr|exact Hbound].
Defined.

(** ** main, from the watches to the last sleep *)

Lemma calls_made_main_sleep ms s : calls_made (main_sleep ms s) = calls_made s.
Proof. done. Qed.

Lemma calls_made_main_call s c : calls_made (main_call s c) = calls_made s ++ [c].
Proof. unfold calls_made, main_call. simpl. by rewrite map_app. Qed.

Lemma main_startup_finished args fs env mkdir_error fuel t s0 watchDirs :
  main_startup args fs env mkdir_error fuel t = Finished (s0, watchDirs) ->
  exists n,
    resolve_watchDirs args fs fuel = Finished (n, watchDirs)
    /\ calls_made s0
       = (if preexistingDir args fs then [] else [Mkdir (baseDir args)])
         ++ map AddWatch (watched_paths fs watchDirs).
Proof.
  unfold main_startup.
  destruct (warmup_loop args env fuel _) as [sl|e sl|sl]; try discriminate.
  destruct (resolve_watchDirs args fs fuel) as [[n dirs]|e [n dirs]|[n dirs]];
    [|by destruct (preexistingDir args fs), mkdir_error
     |by destruct (preexistingDir args fs), mkdir_error].
  match goal with
  | |- context [EventWatcher_init args env fuel ?t0] =>
      destruct (EventWatcher_init args env fuel t0) as [[self t1]|e [self t1]|[self t1]]
  end; try (by destruct (preexistingDir args fs), mkdir_error).
  intros Hfin. exists n.
  destruct (preexistingDir args fs); [|destruct mkdir_error; [discriminate|]];
    injection Hfin as <- <-; (split; [done|]);
    by rewrite calls_made_main_sleep, calls_made_main_calls.
Qed.

Lemma main_serve_finished args fs env fuel began s0 watchDirs s :
  main_serve args fs env fuel began s0 watchDirs = Finished s ->
  let started := negb (shuttingDown env (clock (m_tl s0))) in
  let shutdown := shuttingDown env (clock (m_tl s0) + (if started then 2 else 1)) in
  calls_made s
  = calls_made s0 ++ (if started then [NotifierStart] else [])
    ++ map Touch (touch_preexisting args fs shutdown watchDirs)
    ++ (if started then [NotifierStop] else [])
  /\ exists tr τ, trace (m_tl s) = tr ++ [(τ, Sleep 1000)].
Proof.
  unfold main_serve.
  destruct (shuttingDown env (clock (m_tl s0))) eqn:Hflag; simpl negb; cbv iota zeta.
  - replace (clock (m_tl (main_tick s0))) with (clock (m_tl s0) + 1)%nat
      by (simpl; lia).
    destruct (polling_loop env fuel _) as [p|e p|p]; try discriminate.
    intros Hfin. injection Hfin as <-. split.
    + rewrite calls_made_main_sleep. unfold at_time, calls_made at 1. simpl m_calls.
      fold (calls_made (main_calls
        (map Touch (touch_preexisting args fs
           (shuttingDown env (clock (m_tl s0) + 1)) watchDirs)) (main_tick (main_tick s0)))).
      rewrite calls_made_main_calls. simpl. by rewrite app_nil_r.
    + simpl. eauto.
  - replace (clock (m_tl (main_call (main_tick s0) NotifierStart)))
      with (clock (m_tl s0) + 2)%nat by (simpl; lia).
    destruct (polling_loop env fuel _) as [p|e p|p]; try discriminate.
    intros Hfin. injection Hfin as <-. split.
    + rewrite calls_made_main_sleep, calls_made_main_call.
      unfold at_time, calls_made at 1. simpl m_calls.
      fold (calls_made (main_calls
        (map Touch (touch_preexisting args fs
           (shuttingDown env (clock (m_tl s0) + 2)) watchDirs))
        (main_tick (main_call (main_tick s0) NotifierStart)))).
      rewrite calls_made_main_calls.
      change (calls_made (main_tick (main_call (main_tick s0) NotifierStart)))
        with (calls_made (main_call (main_tick s0) NotifierStart)).
      rewrite calls_made_main_call.
      change (calls_made (main_tick s0)) with (calls_made s0).
      by rewrite <- !app_assoc.
    + simpl. eauto.
Qed.

(** X16. When [main] runs to its end it has first made the base directory
    if that was missing and added one watch for every watch directory the
    resolution loop found, under its absolute path. What follows depends on
    the shutdown flag at the two places that read it: the notifier thread is
    started only if the flag is unset at line 513, the files given to
    [touch] are those found with the value the flag has at line 518, and the
    thread is stopped exactly if it was started. So with the flag set when
    line 513 reads it nothing is started, touched or stopped, and with the
    flag still unset at line 518 the thread is started, the files found are
    touched and the thread is stopped, in this order. The last action is the
    sleep of one second. *)
Theorem main_starts_touches_and_stops_in_order args fs env mkdir_error fuel t s :
  never_cleared (shuttingDown env) ->
  main_run args fs env mkdir_error fuel t = Finished s ->
  exists s0 n watchDirs,
    main_startup args fs env mkdir_error fuel t = Finished (s0, watchDirs)
    /\ resolve_watchDirs args fs fuel = Finished (n, watchDirs)
    /\ calls_made s0
       = (if preexistingDir args fs then [] else [Mkdir (baseDir args)])
         ++ map AddWatch (watched_paths fs watchDirs)
    /\ (let started := negb (shuttingDown env (clock (m_tl s0))) in
        let shutdown := shuttingDown env (clock (m_tl s0) + (if started then 2 else 1)) in
        calls_made s
        = calls_made s0 ++ (if started then [NotifierStart] else [])
          ++ map Touch (touch_preexisting args fs shutdown watchDirs)
          ++ (if started then [NotifierStop] else []))
    /\ (shuttingDown env (clock (m_tl s0)) = true -> calls_made s = calls_made s0)
    /\ (shuttingDown env (clock (m_tl s0) + 2) = false ->
        calls_made s
        = calls_made s0 ++ [NotifierStart]
          ++ map Touch (touch_preexisting args fs false watchDirs) ++ [NotifierStop])
    /\ exists tr τ, trace (m_tl s) = tr ++ [(τ, Sleep 1000)].
Proof.
  intros Hmono Hrun. unfold main_run in Hrun.
  destruct (main_startup args fs env mkdir_error fuel t)
    as [[s0 watchDirs]|e [s0 watchDirs]|[s0 watchDirs]] eqn:Hstart; try discriminate.
  destruct (main_startup_finished _ _ _ _ _ _ _ _ Hstart) as (n & Hres & Hcalls).
  destruct (main_serve_finished _ _ _ _ _ _ _ _ Hrun) as [Hserve Hlast].
  exists s0, n, watchDirs. repeat (split; [done|]). split; [|split; [|done]].
  - intros Hflag. rewrite Hserve, Hflag. simpl negb. cbv iota.
    rewrite (Hmono (clock (m_tl s0)) (clock (m_tl s0) + 1)%nat) by (lia || done).
    rewrite touch_preexisting_shut_down. simpl. by rewrite app_nil_r.
  - intros Hflag. rewrite Hserve.
    destruct (shuttingDown env (clock (m_tl s0))) eqn:Hearly.
    + rewrite (Hmono (clock (m_tl s0)) (clock (m_tl s0) + 2)%nat) in Hflag by (lia || done).
      discriminate.
    + simpl negb. cbv iota. by rewrite Hflag.
Qed.

Lemma late_flag_never_cleared : never_cleared (shuttingDown Sample2.backend_up_shutdown_late).
Proof.
  intros t t' Hle. cbv [Sample2.backend_up_shutdown_late shuttingDown].
  intros Ht%Nat.leb_le. apply Nat.leb_le. lia.
Qed.

Lemma main_starts_touches_and_stops_in_order_witness :
  exists s,
    main_run Sample.args_waiting Sample2.fs_absolute Sample2.backend_up_shutdown_late
      None 30 Sample.start = Finished s
    /\ calls_made s
       = [AddWatch "/data/pcap"; NotifierStart; Touch "/data/pcap/a.pcap"; NotifierStop].
Proof.
  destruct (main_run Sample.args_waiting Sample2.fs_absolute
              Sample2.backend_up_shutdown_late None 30 Sample.start)
    as [s|e s|s] eqn:Hrun; [|vm_compute in Hrun; discriminate..].
  exists s. split; [reflexivity|].
  destruct (main_starts_touches_and_stops_in_order
              Sample.args_waiting Sample2.fs_absolute Sample2.backend_up_shutdown_late
              None 30 Sample.start s late_flag_never_cleared Hrun)
    as (s0 & n & watchDirs & Hstart & _ & _ & _ & _ & Hlate & _).
  vm_compute in Hstart. injection Hstart as <- <-.
  rewrite (Hlate eq_refl). vm_compute. reflexivity.
Defined.

(** ** main when shutdown is requested before it begins *)

Lemma main_serve_when_shut_down args fs env fuel began s0 watchDirs :
  (forall τ, shuttingDown env τ = true) ->
  exists s,
    main_serve args fs env fuel began s0 watchDirs = Finished s
    /\ calls_made s = calls_made s0
    /\ trace (m_tl s) = trace (m_tl s0) ++ [(S (S (clock (m_tl s0))), Sleep 1000)].
Proof.
  intros Hflag. unfold main_serve. rewrite !Hflag. simpl negb. cbv iota zeta.
  rewrite touch_preexisting_shut_down. simpl map. unfold main_calls. simpl foldl.
  unfold polling_loop. rewrite while_cond_false
    by (unfold polling_cond; by rewrite Hflag).
  eexists. split; [reflexivity|]. by split.
Qed.

Lemma main_startup_when_shut_down args fs env fuel t n watchDirs :
  (forall τ, shuttingDown env τ = true) ->
  resolve_watchDirs args fs fuel = Finished (n, watchDirs) ->
  exists s0 c1 c2,
    main_startup args fs env None fuel t = Finished (s0, watchDirs)
    /\ calls_made s0
       = (if preexistingDir args fs then [] else [Mkdir (baseDir args)])
         ++ map AddWatch (watched_paths fs watchDirs)
    /\ trace (m_tl s0) = trace t ++ [(c1, Sleep 1000); (c2, Sleep 2000)].
Proof.
  intros Hflag Hres. unfold main_startup, warmup_loop.
  rewrite while_cond_false by (unfold warmup_cond; simpl; by rewrite Hflag).
  rewrite Hres. simpl sl_tl.
  assert ((if preexistingDir args fs then None else @None Exn) = None) as ->
    by by destruct (preexistingDir args fs).
  set (s1 := if preexistingDir args fs then {| m_tl := t; m_calls := [] |}
             else main_call {| m_tl := t; m_calls := [] |} (Mkdir (baseDir args))).
  assert (calls_made s1 = if preexistingDir args fs then [] else [Mkdir (baseDir args)])
    as Hcalls by (subst s1; by destruct (preexistingDir args fs)).
  assert (trace (m_tl s1) = trace t) as Htrace
    by (subst s1; by destruct (preexistingDir args fs)).
  destruct (init_when_shut_down args env fuel (m_tl (main_sleep 1000 s1)) (Hflag _))
    as (self & -> & _).
  eexists _, _, _. split; [reflexivity|]. split.
  - by rewrite calls_made_main_sleep, calls_made_main_calls, <- Hcalls.
  - simpl. rewrite trace_main_calls. simpl. rewrite Htrace, <- app_assoc. reflexivity.
Qed.

(** X17. With shutdown requested before [main] begins, the loop that
    resolves the watch directories is the one place that does not look at
    the flag. Whenever that loop ends, [main] runs to its end: it sleeps one
    second, two seconds and one second and nothing else, makes the base
    directory if it was missing, adds the watches, and neither connects to
    the backend nor starts the notifier thread nor touches a file. Without a
    recursive name the loop ends in its first pass, so this is what happens.
    With a recursive name that [glob.glob] never finds, [main] never gets
    past the loop, for all the shutdown request: it adds no watch and does
    not reach a sleep. *)
Theorem main_shut_down_from_the_start args fs env t :
  (forall τ, shuttingDown env τ = true) ->
  (forall fuel n watchDirs,
     resolve_watchDirs args fs fuel = Finished (n, watchDirs) ->
     exists s c1 c2 c3,
       main_run args fs env None fuel t = Finished s
       /\ trace (m_tl s) = trace t ++ [(c1, Sleep 1000); (c2, Sleep 2000); (c3, Sleep 1000)]
       /\ calls_made s
          = (if preexistingDir args fs then [] else [Mkdir (baseDir args)])
            ++ map AddWatch (watched_paths fs watchDirs))
  /\ (recursiveDir args = None ->
      forall fuel, exists s c1 c2 c3,
        main_run args fs env None (S fuel) t = Finished s
        /\ trace (m_tl s) = trace t ++ [(c1, Sleep 1000); (c2, Sleep 2000); (c3, Sleep 1000)]
        /\ calls_made s
           = (if preexistingDir args fs then [] else [Mkdir (baseDir args)])
             ++ [AddWatch (posixpath.abspath (os_getcwd fs) (baseDir args))])
  /\ (forall name,
        recursiveDir args = Some name ->
        (forall k, glob_glob fs k (baseDir args +:+ "/**/" +:+ name) = []) ->
        forall fuel, exists s,
          main_run args fs env None fuel t = OutOfFuel s
          /\ calls_made s = (if preexistingDir args fs then [] else [Mkdir (baseDir args)])
          /\ trace (m_tl s) = trace t).
Proof.
  intros Hflag.
  assert (forall fuel n watchDirs,
     resolve_watchDirs args fs fuel = Finished (n, watchDirs) ->
     exists s c1 c2 c3,
       main_run args fs env None fuel t = Finished s
       /\ trace (m_tl s) = trace t ++ [(c1, Sleep 1000); (c2, Sleep 2000); (c3, Sleep 1000)]
       /\ calls_made s
          = (if preexistingDir args fs then [] else [Mkdir (baseDir args)])
            ++ map AddWatch (watched_paths fs watchDirs)) as Hends.
  { intros fuel n watchDirs Hres.
    destruct (main_startup_when_shut_down args fs env fuel t n watchDirs Hflag Hres)
      as (s0 & c1 & c2 & Hstart & Hcalls0 & Htrace0).
    destruct (main_serve_when_shut_down args fs env fuel (clock t) s0 watchDirs Hflag)
      as (s & Hserve & Hcalls & Htrace).
    exists s, c1, c2, (S (S (clock (m_tl s0)))).
    unfold main_run. rewrite Hstart. split; [exact Hserve|].
    split; [by rewrite Htrace, Htrace0, <- app_assoc|]. by rewrite Hcalls. }
  split; [exact Hends|]. split.
  - intros Hnone fuel. apply (Hends (S fuel) O [baseDir args]).
    unfold resolve_watchDirs. simpl. unfold resolve_cond at 1, resolve_body at 1. simpl.
    rewrite Hnone. by destruct fuel.
  - intros name Hrec Hempty fuel. unfold main_run, main_startup, warmup_loop.
    rewrite while_cond_false by (unfold warmup_cond; simpl; by rewrite Hflag).
    unfold resolve_watchDirs.
    rewrite (resolve_spins args fs name Hrec fuel O) by (intros; apply Hempty).
    destruct (preexistingDir args fs); eexists; (split; [reflexivity|]); by split.
Qed.

Lemma main_shut_down_from_the_start_witness :
  (exists s c1 c2 c3,
     main_run Sample2.args_recursive Sample2.fs_recursive Sample2.shut_down_from_start
       None 2 Sample.start = Finished s
     /\ trace (m_tl s) = trace Sample.start ++ [(c1, Sleep 1000); (c2, Sleep 2000); (c3, Sleep 1000)]
     /\ calls_made s
        = (if preexistingDir Sample2.args_recursive Sample2.fs_recursive then []
           else [Mkdir (baseDir Sample2.args_recursive)])
          ++ map AddWatch (watched_paths Sample2.fs_recursive ["/data/pcap/sensor/live"]))
  /\ (exists s,
        main_run Sample2.args_recursive Sample2.fs_absolute Sample2.shut_down_from_start
          None 50 Sample.start = OutOfFuel s
        /\ calls_made s
           = (if preexistingDir Sample2.args_recursive Sample2.fs_absolute then []
              else [Mkdir (baseDir Sample2.args_recursive)])
        /\ trace (m_tl s) = trace Sample.start).
Proof.
  split.
  - apply (proj1 (main_shut_down_from_the_start Sample2.args_recursive Sample2.fs_recursive
                    Sample2.shut_down_from_start Sample.start (fun _ => eq_refl))
             2%nat 2%nat ["/data/pcap/sensor/live"]).
    reflexivity.
  - apply (proj2 (proj2 (main_shut_down_from_the_start Sample2.args_recursive
                           Sample2.fs_absolute Sample2.shut_down_from_start Sample.start
                           (fun _ => eq_refl)))
             "live" eq_refl (fun _ => eq_refl) 50%nat).
Defined.
